(** * Movie Watchlist API: a shallow embedding of [index.js]

    The Express application keeps a fixed table of users, each owning an
    array of movies, and serves a login route plus CRUD routes guarded by
    a bearer-token middleware.  Every route handler is embedded as a
    function from the store (and the request) to a response and a new
    store; the JavaScript builtins the handlers rely on (truthiness,
    strict equality, [Number], [String.prototype.split]) are embedded
    next to them, and the [jsonwebtoken] library is an interface with
    laws. *)

From stdpp Require Import base list strings numbers.
From Stdlib Require Import Ascii QArith.

Local Open Scope string_scope.
Local Open Scope Z_scope.

(** ** JavaScript values *)

Module Js.

(** Numbers.  A finite double is represented by its exact rational
    value, compared as a rational, so [+0] and [-0] are one value; the
    code under study only uses [===], [!==] and truthiness on numbers,
    none of which tells the two zeros apart. *)
Inductive Num : Type :=
  | NaN
  | Inf (negative : bool)
  | Fin (q : Q).

(** Values that reach the handlers: JSON bodies, query parameters and
    decoded token payloads.  [JUndefined] is an absent property.  Objects
    and arrays carry their JSON text; they are fresh on every request. *)
Inductive Val : Type :=
  | JUndefined
  | JNull
  | JBool (b : bool)
  | JNumber (n : Num)
  | JString (s : string)
  | JObject (json : string).

#[global] Instance Q_eq_dec : EqDecision Q.
Proof. solve_decision. Defined.
#[global] Instance Num_eq_dec : EqDecision Num.
Proof. solve_decision. Defined.
#[global] Instance Val_eq_dec : EqDecision Val.
Proof. solve_decision. Defined.

Definition of_Z (z : Z) : Num := Fin (inject_Z z).

(** [a === b] on numbers: [NaN] equals nothing, itself included. *)
Definition num_strict_eq (a b : Num) : bool :=
  match a, b with
  | Fin p, Fin q => Qeq_bool p q
  | Inf s, Inf t => Bool.eqb s t
  | _, _ => false
  end.

(** [a === b]: no coercion; two objects parsed from a request are never
    the same reference as anything else. *)
Definition strict_eq (a b : Val) : bool :=
  match a, b with
  | JUndefined, JUndefined => true
  | JNull, JNull => true
  | JBool x, JBool y => Bool.eqb x y
  | JNumber x, JNumber y => num_strict_eq x y
  | JString x, JString y => String.eqb x y
  | _, _ => false
  end.

(** ToBoolean: the falsy values are [undefined], [null], [false], zero,
    [NaN] and the empty string. *)
Definition truthy (v : Val) : bool :=
  match v with
  | JUndefined | JNull => false
  | JBool b => b
  | JNumber NaN => false
  | JNumber (Inf _) => true
  | JNumber (Fin q) => negb (Qeq_bool q 0)
  | JString s => negb (String.eqb s "")
  | JObject _ => true
  end.

(** [!v] and [!!v]. *)
Definition not (v : Val) : bool := negb (truthy v).
Definition to_boolean (v : Val) : Val := JBool (truthy v).

Definition is_undefined (v : Val) : bool :=
  match v with JUndefined => true | _ => false end.

(** *** Rounding to binary64 *)

(** Round [num/den] (both positive) to the nearest integer, ties to even. *)
Definition round_half_even (num den : Z) : Z :=
  let q := num / den in
  let r := num mod den in
  if 2 * r <? den then q
  else if den <? 2 * r then q + 1
  else if Z.even q then q else q + 1.

(** [floor (log2 (n/d))] for positive [n] and [d]. *)
Definition floor_log2 (n d : Z) : Z :=
  let k := Z.log2 n - Z.log2 d in
  let above := if 0 <=? k then d * 2 ^ k <=? n else d <=? n * 2 ^ (- k) in
  if above then k else k - 1.

(** The double nearest to the positive rational [n/d]: 53 significant
    bits, gradual underflow below [2^-1022], overflow to infinity. *)
Definition round_binary64_pos (n d : Z) : Num :=
  let p := Z.max (floor_log2 n d - 52) (-1074) in
  let m := if 0 <=? p then round_half_even n (d * 2 ^ p)
           else round_half_even (n * 2 ^ (- p)) d in
  let v := if 0 <=? p then inject_Z (m * 2 ^ p)
           else Qred (Qmake m (Z.to_pos (2 ^ (- p)))) in
  if Qle_bool (inject_Z (2 ^ 1024)) v then Inf false else Fin v.

Definition num_neg (x : Num) : Num :=
  match x with
  | NaN => NaN
  | Inf s => Inf (negb s)
  | Fin q => Fin (Qred (- q))
  end.

(** *** [Number(string)] *)

Definition code (c : ascii) : Z := Z.of_N (N_of_ascii c).

(** StrWhiteSpaceChar, within the code units a [string] can hold: TAB,
    LF, VT, FF, CR, SP and NBSP. *)
Definition is_space (c : ascii) : bool :=
  let n := code c in
  ((9 <=? n) && (n <=? 13)) || (n =? 32) || (n =? 160).

Fixpoint trim_start (s : string) : string :=
  match s with
  | String c r => if is_space c then trim_start r else s
  | EmptyString => EmptyString
  end.

Fixpoint all_space (s : string) : bool :=
  match s with
  | String c r => is_space c && all_space r
  | EmptyString => true
  end.

Fixpoint trim_end (s : string) : string :=
  match s with
  | String c r => if all_space s then EmptyString else String c (trim_end r)
  | EmptyString => EmptyString
  end.

Definition trim (s : string) : string := trim_end (trim_start s).

(** Value of a digit in the given radix, if it is one. *)
Definition digit_of (radix : Z) (c : ascii) : option Z :=
  let n := code c in
  let v := if (48 <=? n) && (n <=? 57) then n - 48
           else if (97 <=? n) && (n <=? 102) then n - 87
           else if (65 <=? n) && (n <=? 70) then n - 55
           else radix in
  if v <? radix then Some v else None.

(** Longest prefix of digits: its value continuing from [acc], the number
    of digits read, and the rest. *)
Fixpoint digits (radix : Z) (acc : Z) (count : Z) (s : string) : Z * Z * string :=
  match s with
  | String c r =>
      match digit_of radix c with
      | Some v => digits radix (acc * radix + v) (count + 1) r
      | None => (acc, count, s)
      end
  | EmptyString => (acc, count, s)
  end.

(** NonDecimalIntegerLiteral after its two-character prefix. *)
Definition radix_literal (radix : Z) (s : string) : Num :=
  match digits radix 0 0 s with
  | (v, n, EmptyString) =>
      if n =? 0 then NaN
      else if v =? 0 then Fin 0 else round_binary64_pos v 1
  | _ => NaN
  end.

(** ExponentPart, if [s] is one: [e] or [E], an optional sign, digits. *)
Definition exponent_part (s : string) : option Z :=
  match s with
  | EmptyString => Some 0
  | String c r =>
      if (code c =? 101) || (code c =? 69) then
        let '(neg, r') :=
          match r with
          | String "+"%char t => (false, t)
          | String "-"%char t => (true, t)
          | _ => (false, r)
          end in
        match digits 10 0 0 r' with
        | (v, n, EmptyString) =>
            if n =? 0 then None else Some (if neg then - v else v)
        | _ => None
        end
      else None
  end.

(** StrUnsignedDecimalLiteral. *)
Definition unsigned_decimal (s : string) : Num :=
  if String.eqb s "Infinity" then Inf false else
  let '(ip, ni, r1) := digits 10 0 0 s in
  let '(mant, nf, r2) :=
    match r1 with
    | String "."%char t => digits 10 ip 0 t
    | _ => (ip, 0, r1)
    end in
  if (ni =? 0) && (nf =? 0) then NaN else
  match exponent_part r2 with
  | None => NaN
  | Some e =>
      if mant =? 0 then Fin 0
      else if 0 <=? e - nf then round_binary64_pos (mant * 10 ^ (e - nf)) 1
      else round_binary64_pos mant (10 ^ (nf - e))
  end.

(** StringToNumber: the empty or blank string is 0; anything outside the
    StringNumericLiteral grammar is [NaN]. *)
Definition Number (s : string) : Num :=
  match trim s with
  | EmptyString => Fin 0
  | String "0"%char (String "x"%char r) | String "0"%char (String "X"%char r) => radix_literal 16 r
  | String "0"%char (String "o"%char r) | String "0"%char (String "O"%char r) => radix_literal 8 r
  | String "0"%char (String "b"%char r) | String "0"%char (String "B"%char r) => radix_literal 2 r
  | String "+"%char r => unsigned_decimal r
  | String "-"%char r => num_neg (unsigned_decimal r)
  | t => unsigned_decimal t
  end.

(** *** [String.prototype.split] with a one-character separator *)

(** The segments of [s] between occurrences of [sep]; there is always at
    least one, possibly empty. *)
Fixpoint split (sep : ascii) (s : string) : list string :=
  match s with
  | EmptyString => [EmptyString]
  | String c r =>
      if Ascii.eqb c sep then EmptyString :: split sep r
      else match split sep r with
           | seg :: segs => String c seg :: segs
           | [] => [String c EmptyString]
           end
  end.

End Js.

(** ** The [jsonwebtoken] library, as an interface *)

Module Jwt.

(** The object [login] signs. *)
Record Payload : Type := { payload_id : Z; payload_username : string }.

(** What [jwt.verify] hands to its callback on success; the guard reads
    only [decoded.id]. *)
Record Decoded : Type := { decoded_id : Js.Val; decoded_username : Js.Val }.

Inductive VerifyError : Type :=
  | TokenExpiredError
  | JsonWebTokenError
  | NotBeforeError.

Definition decoded_of (p : Payload) : Decoded :=
  {| decoded_id := Js.JNumber (Js.of_Z (payload_id p));
     decoded_username := Js.JString (payload_username p) |}.

Fixpoint contains (c : ascii) (s : string) : bool :=
  match s with
  | EmptyString => false
  | String d r => Ascii.eqb d c || contains c r
  end.

(** [sign payload secret expiresIn clock] and [verify token secret clock];
    the clock is the library's, [Math.floor(Date.now() / 1000)], and
    [expiresIn] is in seconds.  The laws are the part of the library's
    contract the application depends on: a token is a non-empty string
    without spaces, and a token signed with a secret verifies under that
    secret until its expiry time and is expired from then on. *)
Class Lib : Type := {
  sign : Payload → string → Z → Z → string;
  verify : string → string → Z → VerifyError + Decoded;
  sign_wire : ∀ p k e c,
    sign p k e c ≠ "" ∧ contains " " (sign p k e c) = false;
  sign_verify : ∀ p k e c c',
    k ≠ "" →
    verify (sign p k e c) k c' =
      if c' <? c + e then inr (decoded_of p) else inl TokenExpiredError
}.

End Jwt.

(** ** Data model *)

(** [{ id, movietitle, language, watched }].  The id comes from
    [generateId] and is an integer; the other fields hold whatever the
    request body supplied.  The [id] properties of movies and users are
    the fields [m_id] and [u_id]. *)
Record Movie : Type := {
  m_id : Z;
  movietitle : Js.Val;
  language : Js.Val;
  watched : Js.Val
}.

(** [{ id, username, password, movies }]. *)
Record User : Type := {
  u_id : Z;
  username : string;
  password : string;
  movies : list Movie
}.

(** The [users] array; a user object is referred to by its position. *)
Abbreviation Store := (list User).

Definition users : Store :=
  [ {| u_id := 1; username := "Ashwanth"; password := "kok123"; movies := [] |};
    {| u_id := 2; username := "alice"; password := "123"; movies := [] |} ].

(** What a request observes of the outside world: [Date.now()] in
    milliseconds and the value of [Math.floor(Math.random() * 1000)]. *)
Record Env : Type := { now : Z; random1000 : Z }.

Definition env_ok (e : Env) : Prop := 0 ≤ random1000 e < 1000.

(** [req.body || {}] of the login route and of the movie routes, after
    destructuring: an absent property is [undefined]. *)
Record LoginBody : Type := { lb_username : Js.Val; lb_password : Js.Val }.
Record MovieBody : Type := {
  mb_movietitle : Js.Val;
  mb_language : Js.Val;
  mb_watched : Js.Val
}.

Inductive Body : Type :=
  | Message (message : string)
  | TokenBody (token : string)
  | MovieJson (movie : Movie)
  | MoviesJson (list_ : list Movie)
  | Empty.

Record Response : Type := { status : Z; body : Body }.

Definition json (b : Body) : Response := {| status := 200; body := b |}.
Definition status_json (code : Z) (b : Body) : Response :=
  {| status := code; body := b |}.

Inductive Request : Type :=
  | PostLogin (b : LoginBody)
  | GetMovies (authorization : option string) (query_status : Js.Val)
  | PostMovies (authorization : option string) (b : MovieBody)
  | GetMovie (authorization : option string) (id : string)
  | PutMovie (authorization : option string) (id : string) (b : MovieBody)
  | PatchMovie (authorization : option string) (id : string) (b : MovieBody)
  | DeleteMovie (authorization : option string) (id : string)
  | OtherEndpoint.

(** ** The application *)

(** [process.env]: the signing secret, if one is configured. *)
Class ProcessEnv : Type := { env_SECRET_KEY : option string }.

Section App.

Context {J : Jwt.Lib} {P : ProcessEnv}.

(** [process.env.SECRET_KEY || 'fallback_secret_key'] *)
Definition SECRET_KEY : string :=
  match env_SECRET_KEY with
  | Some k => if String.eqb k "" then "fallback_secret_key" else k
  | None => "fallback_secret_key"
  end.

(** The clock [jsonwebtoken] reads. *)
Definition jwt_clock (e : Env) : Z := now e / 1000.

(** ['24h'] in seconds. *)
Definition expiresIn : Z := 86400.

Definition generateId (e : Env) : Z := now e + random1000 e.

(** [POST /login] *)
Definition login (st : Store) (e : Env) (b : LoginBody) : Response :=
  if Js.not (lb_username b) || Js.not (lb_password b) then
    status_json 400 (Message "username and password required")
  else
    match list_find (λ u : User,
            Js.strict_eq (Js.JString (username u)) (lb_username b)
            && Js.strict_eq (Js.JString (password u)) (lb_password b)) st with
    | None => status_json 401 (Message "Invalid credentials")
    | Some (_, user) =>
        let token :=
          Jwt.sign {| Jwt.payload_id := u_id user;
                      Jwt.payload_username := username user |}
                   SECRET_KEY expiresIn (jwt_clock e) in
        json (TokenBody token)
    end.

(** [authHeader && authHeader.split(' ')[1]]: [None] is [undefined]. *)
Definition header_token (authHeader : option string) : option string :=
  match authHeader with
  | None => None
  | Some h => if String.eqb h "" then Some "" else Js.split " " h !! 1%nat
  end.

(** The middleware: either the response it sends itself, or the user it
    attaches to the request, as that user's position in the store
    together with the user object found there. *)
Definition authenticateToken (st : Store) (e : Env) (authHeader : option string)
  : Response + nat * User :=
  match header_token authHeader with
  | None | Some "" => inl (status_json 401 (Message "Missing token"))
  | Some token =>
      match Jwt.verify token SECRET_KEY (jwt_clock e) with
      | inl _ => inl (status_json 403 (Message "Invalid or expired token"))
      | inr decoded =>
          match list_find (λ u : User,
                  Js.strict_eq (Js.JNumber (Js.of_Z (u_id u)))
                               (Jwt.decoded_id decoded)) st with
          | None => inl (status_json 401 (Message "User not found"))
          | Some iu => inr iu
          end
      end
  end.

(** Assignment to [req.user.movies], or mutation of that array in place. *)
Definition set_movies (ms : list Movie) (u : User) : User :=
  {| u_id := u_id u; username := username u; password := password u;
     movies := ms |}.

Definition store_movies (st : Store) (i : nat) (ms : list Movie) : Store :=
  alter (set_movies ms) i st.

(** [m => Number(m.id) === id] *)
Definition id_matches (id : Js.Num) (m : Movie) : bool :=
  Js.num_strict_eq (Js.of_Z (m_id m)) id.

(** [GET /movies] *)
Definition get_movies (user : User) (query_status : Js.Val) : Response :=
  let ms := movies user in
  let ms :=
    if Js.strict_eq query_status (Js.JString "watched") then
      filter (λ m : Movie, Js.strict_eq (watched m) (Js.JBool true)) ms
    else if Js.strict_eq query_status (Js.JString "unwatched") then
      filter (λ m : Movie, Js.strict_eq (watched m) (Js.JBool false)) ms
    else ms in
  json (MoviesJson ms).

(** The object literal [newMovie] of [POST /movies]. *)
Definition newMovie (e : Env) (b : MovieBody) : Movie :=
  {| m_id := generateId e;
     movietitle := mb_movietitle b;
     language := mb_language b;
     watched := if Js.is_undefined (mb_watched b) then Js.JBool false
                else Js.to_boolean (mb_watched b) |}.

(** [POST /movies] *)
Definition post_movies (st : Store) (e : Env) (i : nat) (user : User)
    (b : MovieBody) : Response * Store :=
  if Js.not (mb_movietitle b) || Js.not (mb_language b) then
    (status_json 400 (Message "movietitle and language are required"), st)
  else
    (status_json 201 (MovieJson (newMovie e b)),
     store_movies st i (movies user ++ [newMovie e b])).

(** [GET /movies/:id] *)
Definition get_movie (user : User) (id_param : string) : Response :=
  let id := Js.Number id_param in
  match list_find (λ m : Movie, id_matches id m) (movies user) with
  | None => status_json 404 (Message "Movie not found")
  | Some (_, movie) => json (MovieJson movie)
  end.

(** The three assignments of [PUT]. *)
Definition put_fields (movie : Movie) (b : MovieBody) : Movie :=
  {| m_id := m_id movie;
     movietitle := mb_movietitle b;
     language := mb_language b;
     watched := Js.to_boolean (mb_watched b) |}.

(** [PUT /movies/:id] *)
Definition put_movie (st : Store) (i : nat) (user : User) (id_param : string)
    (b : MovieBody) : Response * Store :=
  let id := Js.Number id_param in
  match list_find (λ m : Movie, id_matches id m) (movies user) with
  | None => (status_json 404 (Message "Movie not found"), st)
  | Some (j, movie) =>
      if Js.is_undefined (mb_movietitle b) || Js.is_undefined (mb_language b)
         || Js.is_undefined (mb_watched b) then
        (status_json 400
           (Message "movietitle, language and watched are required for full update"),
         st)
      else
        let movie' := put_fields movie b in
        (json (MovieJson movie'), store_movies st i (<[j := movie']> (movies user)))
  end.

(** The three conditional assignments of [PATCH]. *)
Definition patch_fields (movie : Movie) (b : MovieBody) : Movie :=
  {| m_id := m_id movie;
     movietitle := if Js.is_undefined (mb_movietitle b) then movietitle movie
                   else mb_movietitle b;
     language := if Js.is_undefined (mb_language b) then language movie
                 else mb_language b;
     watched := if Js.is_undefined (mb_watched b) then watched movie
                else Js.to_boolean (mb_watched b) |}.

(** [PATCH /movies/:id] *)
Definition patch_movie (st : Store) (i : nat) (user : User) (id_param : string)
    (b : MovieBody) : Response * Store :=
  let id := Js.Number id_param in
  match list_find (λ m : Movie, id_matches id m) (movies user) with
  | None => (status_json 404 (Message "Movie not found"), st)
  | Some (j, movie) =>
      let movie' := patch_fields movie b in
      (json (MovieJson movie'), store_movies st i (<[j := movie']> (movies user)))
  end.

(** [DELETE /movies/:id] *)
Definition delete_movie (st : Store) (i : nat) (user : User) (id_param : string)
  : Response * Store :=
  let id := Js.Number id_param in
  let before := length (movies user) in
  let ms := filter (λ m : Movie, negb (id_matches id m)) (movies user) in
  let st' := store_movies st i ms in
  let after := length ms in
  if Nat.eqb before after then (status_json 404 (Message "Movie not found"), st')
  else (status_json 204 Empty, st').

(** A protected route: the middleware first, the handler only if it
    calls [next()]. *)
Definition protected (st : Store) (e : Env) (authHeader : option string)
    (handler : nat → User → Response * Store) : Response * Store :=
  match authenticateToken st e authHeader with
  | inl res => (res, st)
  | inr (i, user) => handler i user
  end.

(** One request served to completion. *)
Definition handle (st : Store) (e : Env) (r : Request) : Response * Store :=
  match r with
  | PostLogin b => (login st e b, st)
  | GetMovies a q => protected st e a (λ _ user, (get_movies user q, st))
  | PostMovies a b => protected st e a (λ i user, post_movies st e i user b)
  | GetMovie a id => protected st e a (λ _ user, (get_movie user id, st))
  | PutMovie a id b => protected st e a (λ i user, put_movie st i user id b)
  | PatchMovie a id b => protected st e a (λ i user, patch_movie st i user id b)
  | DeleteMovie a id => protected st e a (λ i user, delete_movie st i user id)
  | OtherEndpoint => (status_json 404 (Message "Endpoint not found"), st)
  end.

(** Requests served one after the other, each in its own environment. *)
Fixpoint run (st : Store) (tr : list (Env * Request)) : Store :=
  match tr with
  | [] => st
  | (e, r) :: tr' => run (handle st e r).2 tr'
  end.

End App.

(** ** Vocabulary of the properties *)

Section Vocabulary.

Context {J : Jwt.Lib} {P : ProcessEnv}.

Definition missing_token : Response := status_json 401 (Message "Missing token").
Definition invalid_token : Response :=
  status_json 403 (Message "Invalid or expired token").
Definition user_not_found : Response := status_json 401 (Message "User not found").

(** The header a route hands to the middleware, for the routes that
    install it. *)
Definition request_authorization (r : Request) : option (option string) :=
  match r with
  | GetMovies a _ | PostMovies a _ | GetMovie a _ | PutMovie a _ _
  | PatchMovie a _ _ | DeleteMovie a _ => Some a
  | PostLogin _ | OtherEndpoint => None
  end.

(** What the login route and the guard look at in a user. *)
Definition creds (u : User) : Z * string * string :=
  (u_id u, username u, password u).

Definition not_found : Response := status_json 404 (Message "Movie not found").

(** The user on whose behalf a request is served: the one the guard
    attaches, if the route is guarded and the guard lets it through. *)
Definition acting_user (st : Store) (e : Env) (r : Request) : option nat :=
  match request_authorization r with
  | Some a =>
      match authenticateToken st e a with
      | inr (i, _) => Some i
      | inl _ => None
      end
  | None => None
  end.

(** The ways a request rewrites the collection of the acting user. *)
Inductive Update (e : Env) (old : list Movie) : Request → list Movie → Prop :=
  | Created a b :
      Update e old (PostMovies a b) (old ++ [newMovie e b])
  | Replaced a id b j movie :
      old !! j = Some movie →
      Update e old (PutMovie a id b) (<[j := put_fields movie b]> old)
  | Patched a id b j movie :
      old !! j = Some movie →
      Update e old (PatchMovie a id b) (<[j := patch_fields movie b]> old)
  | Deleted a id :
      Update e old (DeleteMovie a id)
        (filter (λ m : Movie, negb (id_matches (Js.Number id) m)) old).

(** A property of every user's collection. *)
Definition collections (Φ : list Movie → Prop) (st : Store) : Prop :=
  Forall (λ u, Φ (movies u)) st.

Definition is_boolean (v : Js.Val) : Prop := ∃ b, v = Js.JBool b.

(** Every stored [watched] is [true] or [false]. *)
Definition watched_boolean (st : Store) : Prop :=
  collections (Forall (λ m, is_boolean (watched m))) st.

(** The ids of each collection are pairwise distinct. *)
Definition ids_distinct (st : Store) : Prop :=
  collections (λ ms, NoDup (m_id <$> ms)) st.

(** The answers to a sequence of requests. *)
Fixpoint responses (st : Store) (tr : list (Env * Request)) : list Response :=
  match tr with
  | [] => []
  | (e, r) :: tr' => (handle st e r).1 :: responses (handle st e r).2 tr'
  end.

(** The requests of a sequence that are served on behalf of the user at
    [k], and the answers they get there. *)
Fixpoint own_requests (k : nat) (st : Store) (tr : list (Env * Request))
  : list (Env * Request) :=
  match tr with
  | [] => []
  | (e, r) :: tr' =>
      let rest := own_requests k (handle st e r).2 tr' in
      if decide (acting_user st e r = Some k) then (e, r) :: rest else rest
  end.

Fixpoint own_responses (k : nat) (st : Store) (tr : list (Env * Request))
  : list Response :=
  match tr with
  | [] => []
  | (e, r) :: tr' =>
      let rest := own_responses k (handle st e r).2 tr' in
      if decide (acting_user st e r = Some k) then (handle st e r).1 :: rest
      else rest
  end.

(** Two stores a user cannot tell apart: the same credential table and
    the same object for that user. *)
Definition same_view (k : nat) (st1 st2 : Store) : Prop :=
  creds <$> st1 = creds <$> st2 ∧ st1 !! k = st2 !! k.

End Vocabulary.

(** ** A reference implementation of the token library

    Tokens are written over an eight-letter alphabet: a self-delimiting
    code of the secret, the payload and the expiry time.  It stands in
    for the HMAC-signed format where a concrete library is needed to run
    the application. *)

Module RefJwt.

Fixpoint enc_pos (p : positive) : string :=
  match p with
  | xH => "h"
  | xO q => String "o" (enc_pos q)
  | xI q => String "i" (enc_pos q)
  end.

Definition enc_Z (z : Z) : string :=
  match z with
  | Z0 => "z"
  | Zpos p => String "p" (enc_pos p)
  | Zneg p => String "n" (enc_pos p)
  end.

Fixpoint enc_string (s : string) : string :=
  match s with
  | EmptyString => "e"
  | String c r => String "c" (enc_Z (Js.code c) +:+ enc_string r)
  end.

Fixpoint dec_pos (s : string) : option (positive * string) :=
  match s with
  | String "h" r => Some (xH, r)
  | String "o" r => prod_map xO id <$> dec_pos r
  | String "i" r => prod_map xI id <$> dec_pos r
  | _ => None
  end.

Definition dec_Z (s : string) : option (Z * string) :=
  match s with
  | String "z" r => Some (Z0, r)
  | String "p" r => prod_map Zpos id <$> dec_pos r
  | String "n" r => prod_map Zneg id <$> dec_pos r
  | _ => None
  end.

(** The fuel bounds the number of characters read. *)
Fixpoint dec_string (fuel : nat) (s : string) : option (string * string) :=
  match fuel, s with
  | _, String "e" r => Some (EmptyString, r)
  | S fuel', String "c" r =>
      '(z, r1) ← dec_Z r;
      '(t, r2) ← dec_string fuel' r1;
      Some (String (ascii_of_N (Z.to_N z)) t, r2)
  | _, _ => None
  end.

Definition sign (p : Jwt.Payload) (k : string) (e c : Z) : string :=
  enc_string k +:+ enc_Z (Jwt.payload_id p)
    +:+ enc_string (Jwt.payload_username p) +:+ enc_Z (c + e).

Definition decode (token : string) : option (string * Z * string * Z) :=
  let n := String.length token in
  '(k, r1) ← dec_string n token;
  '(i, r2) ← dec_Z r1;
  '(u, r3) ← dec_string n r2;
  '(x, r4) ← dec_Z r3;
  if String.eqb r4 "" then Some (k, i, u, x) else None.

Definition verify (token k : string) (clock : Z) : Jwt.VerifyError + Jwt.Decoded :=
  match decode token with
  | None => inl Jwt.JsonWebTokenError
  | Some (k', i, u, x) =>
      if negb (String.eqb k' k) then inl Jwt.JsonWebTokenError
      else if x <=? clock then inl Jwt.TokenExpiredError
      else inr (Jwt.decoded_of {| Jwt.payload_id := i; Jwt.payload_username := u |})
  end.

End RefJwt.

(** ** A small deployment to run the application on

    No [SECRET_KEY] in the environment, the reference token library, and
    a few requests. *)

Module Scenario.

Definition no_secret : ProcessEnv := {| env_SECRET_KEY := None |}.

Definition t0 : Env := {| now := 1700000000000; random1000 := 8 |}.
Definition t1 : Env := {| now := 1700000000001; random1000 := 7 |}.
Definition t2 : Env := {| now := 1700000005000; random1000 := 0 |}.

Definition ashwanth_login : LoginBody :=
  {| lb_username := Js.JString "Ashwanth"; lb_password := Js.JString "kok123" |}.
Definition alice_login : LoginBody :=
  {| lb_username := Js.JString "alice"; lb_password := Js.JString "123" |}.

(** The tokens the two users get when they log in at [t0]. *)
Definition token_at_t0 (id : Z) (name : string) : string :=
  RefJwt.sign {| Jwt.payload_id := id; Jwt.payload_username := name |}
    "fallback_secret_key" 86400 1700000000.
Definition ashwanth_token : string := token_at_t0 1 "Ashwanth".
Definition alice_token : string := token_at_t0 2 "alice".

Definition bearer (token : string) : option string := Some ("Bearer " +:+ token).

Definition inception : MovieBody :=
  {| mb_movietitle := Js.JString "Inception";
     mb_language := Js.JString "English";
     mb_watched := Js.JUndefined |}.

Definition only_watched : MovieBody :=
  {| mb_movietitle := Js.JUndefined;
     mb_language := Js.JUndefined;
     mb_watched := Js.JBool true |}.

Definition inception_at_t0 : Movie :=
  {| m_id := 1700000000008;
     movietitle := Js.JString "Inception";
     language := Js.JString "English";
     watched := Js.JBool false |}.

Definition alice_with (ms : list Movie) : User :=
  {| u_id := 2; username := "alice"; password := "123"; movies := ms |}.

(** Alice adds a movie. *)
Definition alice_creates : list (Env * Request) :=
  [ (t0, PostMovies (bearer alice_token) inception) ].

(** Alice adds the same movie twice, one millisecond apart. *)
Definition alice_creates_twice : list (Env * Request) :=
  [ (t0, PostMovies (bearer alice_token) inception);
    (t1, PostMovies (bearer alice_token) inception) ].

(** Ashwanth adds a movie; Alice asks for it by its id, then lists hers. *)
Definition alice_guesses : list (Env * Request) :=
  [ (t0, PostMovies (bearer ashwanth_token) inception);
    (t1, GetMovie (bearer alice_token) "1700000000008");
    (t1, GetMovies (bearer alice_token) Js.JUndefined) ].

(** A full body for a replace: a new title, a [null] language and a
    truthy string for [watched]. *)
Definition tenet : MovieBody :=
  {| mb_movietitle := Js.JString "Tenet";
     mb_language := Js.JNull;
     mb_watched := Js.JString "yes" |}.

Definition tenet_at_t0 : Movie :=
  {| m_id := 1700000000008;
     movietitle := Js.JString "Tenet";
     language := Js.JNull;
     watched := Js.JBool true |}.

Definition ashwanth_with (ms : list Movie) : User :=
  {| u_id := 1; username := "Ashwanth"; password := "kok123"; movies := ms |}.

End Scenario.

(** ** Integers as text *)

From Stdlib Require DecimalString DecimalPos.

(** [String(n)] for an integer [n] of magnitude below [1e21], which is
    also how [res.json] writes it: decimal digits without leading zeros,
    after a minus sign when negative.  This is the text of a movie id as
    a client reads it in a response and sends it back in a path. *)
Definition integer_to_string (z : Z) : string :=
  match z with
  | Z0 => "0"
  | Zpos p => DecimalString.NilEmpty.string_of_uint (Pos.to_uint p)
  | Zneg p => String "-" (DecimalString.NilEmpty.string_of_uint (Pos.to_uint p))
  end.

(** ** Status codes per route *)


(** * Properties *)

(** ** Strings *)

#[local] Arguments String.append !_ _ / : simpl nomatch.

Lemma append_nil_r (s : string) : s +:+ "" = s.
Proof. induction s as [|c s IH]; simpl; [done | by rewrite IH]. Qed.

Lemma append_assoc (a b c : string) : (a +:+ b) +:+ c = a +:+ (b +:+ c).
Proof. induction a as [|x a IH]; simpl; [done | by rewrite IH]. Qed.

Lemma length_append (a b : string) :
  String.length (a +:+ b) = (String.length a + String.length b)%nat.
Proof. induction a as [|x a IH]; simpl; [done | by rewrite IH]. Qed.

Lemma contains_append (c : ascii) (a b : string) :
  Jwt.contains c (a +:+ b) = Jwt.contains c a || Jwt.contains c b.
Proof.
  induction a as [|x a IH]; simpl; [done |].
  rewrite IH. by destruct (Ascii.eqb x c).
Qed.

Lemma split_not_nil (sep : ascii) (s : string) : Js.split sep s ≠ [].
Proof.
  destruct s as [|c r]; simpl; [done |].
  destruct (Ascii.eqb c sep); [done |]. by destruct (Js.split sep r).
Qed.

(** A string without the separator is its own single segment. *)
Lemma split_no_sep (sep : ascii) (s : string) :
  Jwt.contains sep s = false → Js.split sep s = [s].
Proof.
  induction s as [|c r IH]; simpl; [done |].
  intros [Hc Hr]%orb_false_iff. rewrite Hc, (IH Hr). done.
Qed.

(** The first separator ends the first segment. *)
Lemma split_at_first (sep : ascii) (w r : string) :
  Jwt.contains sep w = false →
  Js.split sep (w +:+ String sep r) = w :: Js.split sep r.
Proof.
  induction w as [|c w IH]; simpl.
  - intros _. by rewrite Ascii.eqb_refl.
  - intros [Hc Hw]%orb_false_iff. rewrite Hc, (IH Hw). done.
Qed.

Lemma split_head (sep : ascii) (s : string) :
  ∃ seg segs, Js.split sep s = seg :: segs.
Proof.
  destruct (Js.split sep s) as [|seg segs] eqn:E.
  - by destruct (split_not_nil sep s).
  - eauto.
Qed.

(** ** The reference token library satisfies the interface *)

Lemma dec_enc_pos (p : positive) (r : string) :
  RefJwt.dec_pos (RefJwt.enc_pos p +:+ r) = Some (p, r).
Proof. induction p as [p IH|p IH|]; simpl; [by rewrite IH ..| done]. Qed.

Lemma dec_enc_Z (z : Z) (r : string) :
  RefJwt.dec_Z (RefJwt.enc_Z z +:+ r) = Some (z, r).
Proof. destruct z as [|p|p]; simpl; [done | by rewrite dec_enc_pos ..]. Qed.

Lemma ascii_of_code (c : ascii) : ascii_of_N (Z.to_N (Js.code c)) = c.
Proof. unfold Js.code. by rewrite N2Z.id, ascii_N_embedding. Qed.

Lemma dec_enc_string (fuel : nat) (s r : string) :
  (String.length s ≤ fuel)%nat →
  RefJwt.dec_string fuel (RefJwt.enc_string s +:+ r) = Some (s, r).
Proof.
  revert fuel. induction s as [|c s IH]; intros fuel Hlen.
  - by destruct fuel.
  - destruct fuel as [|fuel]; simpl in Hlen; [lia |].
    simpl. rewrite append_assoc, dec_enc_Z. simpl.
    rewrite IH by lia. simpl. by rewrite ascii_of_code.
Qed.

Lemma length_enc_string (s : string) :
  (String.length s < String.length (RefJwt.enc_string s))%nat.
Proof.
  induction s as [|c s IH]; simpl; [lia |].
  rewrite length_append. lia.
Qed.

Lemma enc_pos_no_space (p : positive) : Jwt.contains " " (RefJwt.enc_pos p) = false.
Proof. induction p; simpl; done. Qed.

Lemma enc_Z_no_space (z : Z) : Jwt.contains " " (RefJwt.enc_Z z) = false.
Proof. destruct z; simpl; [done | apply enc_pos_no_space ..]. Qed.

Lemma enc_string_no_space (s : string) :
  Jwt.contains " " (RefJwt.enc_string s) = false.
Proof.
  induction s as [|c s IH]; simpl; [done |].
  by rewrite contains_append, enc_Z_no_space, IH.
Qed.

Lemma ref_sign_wire (p : Jwt.Payload) (k : string) (e c : Z) :
  RefJwt.sign p k e c ≠ "" ∧ Jwt.contains " " (RefJwt.sign p k e c) = false.
Proof.
  unfold RefJwt.sign. split.
  - by destruct k.
  - rewrite !contains_append, !enc_string_no_space, !enc_Z_no_space. done.
Qed.

Lemma ref_decode_sign (p : Jwt.Payload) (k : string) (e c : Z) :
  RefJwt.decode (RefJwt.sign p k e c)
  = Some (k, Jwt.payload_id p, Jwt.payload_username p, c + e).
Proof.
  unfold RefJwt.decode, RefJwt.sign.
  set (n := String.length _).
  assert (String.length k ≤ n
          ∧ String.length (Jwt.payload_username p) ≤ n)%nat as [Hk Hu].
  { subst n. rewrite !length_append.
    pose proof (length_enc_string k).
    pose proof (length_enc_string (Jwt.payload_username p)). lia. }
  rewrite dec_enc_string by done. simpl.
  rewrite dec_enc_Z. simpl.
  rewrite <- (append_nil_r (RefJwt.enc_Z (c + e))) at 1.
  rewrite dec_enc_string by done. simpl.
  rewrite dec_enc_Z. simpl. done.
Qed.

Lemma ref_sign_verify (p : Jwt.Payload) (k : string) (e c c' : Z) :
  k ≠ "" →
  RefJwt.verify (RefJwt.sign p k e c) k c' =
    if c' <? c + e then inr (Jwt.decoded_of p) else inl Jwt.TokenExpiredError.
Proof.
  intros _. unfold RefJwt.verify. rewrite ref_decode_sign.
  rewrite String.eqb_refl. simpl.
  rewrite Z.leb_antisym. destruct (c' <? c + e); simpl; [| done].
  by destruct p.
Qed.

Definition ref_lib : Jwt.Lib := {|
  Jwt.sign := RefJwt.sign;
  Jwt.verify := RefJwt.verify;
  Jwt.sign_wire := ref_sign_wire;
  Jwt.sign_verify := ref_sign_verify
|}.

(** ** The access guard *)

Section Guard.

Context {J : Jwt.Lib} {P : ProcessEnv}.

Lemma SECRET_KEY_nonempty : SECRET_KEY ≠ "".
Proof.
  unfold SECRET_KEY. destruct env_SECRET_KEY as [k|]; [| done].
  destruct (String.eqb k "") eqn:E; [done |]. by apply String.eqb_neq.
Qed.

Lemma header_token_nonempty (h : string) :
  h ≠ "" → header_token (Some h) = Js.split " " h !! 1%nat.
Proof. intros Hh. simpl. by apply String.eqb_neq in Hh as ->. Qed.

(** With a scheme word in front, the token is the first segment of what
    follows the first space. *)
Lemma header_token_scheme (scheme rest : string) :
  Jwt.contains " " scheme = false →
  header_token (Some (scheme +:+ String " " rest)) = Js.split " " rest !! 0%nat.
Proof.
  intros Hs. rewrite header_token_nonempty by (by destruct scheme).
  by rewrite split_at_first.
Qed.

Lemma header_token_no_space (h : string) :
  Jwt.contains " " h = false →
  header_token (Some h) = None ∨ header_token (Some h) = Some "".
Proof.
  intros Hh. destruct h as [|c h]; [by right | left].
  rewrite header_token_nonempty by done. by rewrite split_no_sep.
Qed.

(** The guard, case by case. *)
Lemma guard_missing (st : Store) (e : Env) (a : option string) :
  header_token a = None ∨ header_token a = Some "" →
  authenticateToken st e a = inl missing_token.
Proof. unfold authenticateToken. by intros [-> | ->]. Qed.

Lemma guard_token (st : Store) (e : Env) (a : option string) (token : string) :
  header_token a = Some token → token ≠ "" →
  authenticateToken st e a =
    match Jwt.verify token SECRET_KEY (jwt_clock e) with
    | inl _ => inl invalid_token
    | inr decoded =>
        match list_find (λ u : User,
                Js.strict_eq (Js.JNumber (Js.of_Z (u_id u)))
                             (Jwt.decoded_id decoded)) st with
        | None => inl user_not_found
        | Some iu => inr iu
        end
    end.
Proof.
  intros Ht Hne. unfold authenticateToken. rewrite Ht.
  by destruct token.
Qed.

(** The user the guard attaches is the object stored at that position. *)
Lemma guard_attaches (st : Store) (e : Env) (a : option string) (i : nat) (u : User) :
  authenticateToken st e a = inr (i, u) → st !! i = Some u.
Proof.
  unfold authenticateToken.
  destruct (header_token a) as [[|c t]|]; [done | | done].
  destruct (Jwt.verify _ _ _) as [|d]; [done |].
  destruct (list_find _ st) as [[j v]|] eqn:E; [| done].
  intros [= -> ->]. by apply list_find_Some in E as [? _].
Qed.

Lemma handle_protected (st : Store) (e : Env) (r : Request) (a : option string) :
  request_authorization r = Some a →
  ∃ handler, handle st e r = protected st e a handler.
Proof. destruct r; intros [= <-]; eauto. Qed.

(** C10: the token is the second space-separated segment of the header
    and the scheme word is never looked at.  A header without a space is
    answered 401 "Missing token"; a header made of any space-free scheme
    word, a space and the rest gets the answer the guard gives to
    "Bearer" followed by the same rest. *)
Theorem guard_scheme_unchecked (st : Store) (e : Env) (h scheme rest : string) :
  Jwt.contains " " h = false →
  Jwt.contains " " scheme = false →
  authenticateToken st e (Some h) = inl missing_token
  ∧ header_token (Some (scheme +:+ " " +:+ rest)) = Js.split " " rest !! 0%nat
  ∧ (scheme ≠ "" →
     header_token (Some (scheme +:+ " " +:+ rest))
     = Js.split " " (scheme +:+ " " +:+ rest) !! 1%nat)
  ∧ authenticateToken st e (Some (scheme +:+ " " +:+ rest))
    = authenticateToken st e (Some ("Bearer " +:+ rest)).
Proof.
  intros Hh Hs.
  change (scheme +:+ " " +:+ rest) with (scheme +:+ String " " rest).
  change ("Bearer " +:+ rest) with ("Bearer" +:+ String " " rest).
  split; [| split; [| split]].
  - apply guard_missing, header_token_no_space, Hh.
  - by apply header_token_scheme.
  - intros Hne. apply header_token_nonempty. by destruct scheme.
  - unfold authenticateToken.
    rewrite (header_token_scheme scheme rest Hs).
    by rewrite (header_token_scheme "Bearer" rest).
Qed.

(** C2: on every protected route the guard answers by itself, leaving
    the store as it was and running no handler: 401 when no token is
    supplied, 403 when [jwt.verify] reports an error of any kind
    (malformed token, wrong signature, expired), and 401 when the token
    verifies but no user has the id it carries. *)
Theorem guard_rejections (st : Store) (e : Env) (r : Request) (a : option string) :
  request_authorization r = Some a →
  (∃ handler, handle st e r = protected st e a handler)
  ∧ (a = None → handle st e r = (missing_token, st))
  ∧ (header_token a = None ∨ header_token a = Some "" →
     handle st e r = (missing_token, st))
  ∧ (∀ token err,
       header_token a = Some token → token ≠ "" →
       Jwt.verify token SECRET_KEY (jwt_clock e) = inl err →
       handle st e r = (invalid_token, st))
  ∧ (∀ token decoded,
       header_token a = Some token → token ≠ "" →
       Jwt.verify token SECRET_KEY (jwt_clock e) = inr decoded →
       (∀ u, u ∈ st →
          Js.strict_eq (Js.JNumber (Js.of_Z (u_id u))) (Jwt.decoded_id decoded)
          = false) →
       handle st e r = (user_not_found, st)).
Proof.
  intros Hr. destruct (handle_protected st e r a Hr) as [handler Hh].
  split; [by eauto |]. rewrite Hh. unfold protected.
  split; [| split; [| split]].
  - intros ->. done.
  - intros Hm. by rewrite (guard_missing st e a Hm).
  - intros token err Ht Hne Hv. by rewrite (guard_token st e a token Ht Hne), Hv.
  - intros token decoded Ht Hne Hv Hnone.
    rewrite (guard_token st e a token Ht Hne), Hv.
    destruct (list_find _ st) as [[j v]|] eqn:E; [| done].
    apply list_find_Some in E as (Hj & Hp & _).
    apply list_elem_of_lookup_2 in Hj. rewrite (Hnone v Hj) in Hp. done.
Qed.

End Guard.

(** ** The credential table never changes *)

Section Credentials.

Context {J : Jwt.Lib} {P : ProcessEnv}.

Lemma store_movies_creds (st : Store) (i : nat) (ms : list Movie) :
  creds <$> store_movies st i ms = creds <$> st.
Proof.
  unfold store_movies.
  rewrite (list_fmap_alter creds (set_movies ms) id).
  - by apply list_alter_id.
  - by apply list.Forall_forall.
Qed.

Lemma handle_creds (st : Store) (e : Env) (r : Request) :
  creds <$> (handle st e r).2 = creds <$> st.
Proof.
  destruct r as [b|a q|a b|a id|a id b|a id b|a id|]; simpl; try done;
    unfold protected; destruct (authenticateToken st e a) as [res|[i u]];
    simpl; try done.
  - unfold post_movies. destruct (_ || _); simpl; [done |].
    apply store_movies_creds.
  - unfold put_movie. destruct (list_find _ _) as [[j m]|]; [| done].
    destruct (_ || _); simpl; [done |]. apply store_movies_creds.
  - unfold patch_movie. destruct (list_find _ _) as [[j m]|]; [| done].
    apply store_movies_creds.
  - unfold delete_movie. destruct (_ =? _)%nat; apply store_movies_creds.
Qed.

Lemma run_creds (st : Store) (tr : list (Env * Request)) :
  creds <$> run st tr = creds <$> st.
Proof.
  revert st. induction tr as [|[e r] tr IH]; intros st; simpl; [done |].
  by rewrite IH, handle_creds.
Qed.

(** A store with the credentials of [users] is [users] with some movies. *)
Lemma creds_users (st : Store) :
  creds <$> st = creds <$> users →
  ∃ ms0 ms1,
    st = [ {| u_id := 1; username := "Ashwanth"; password := "kok123";
              movies := ms0 |};
           {| u_id := 2; username := "alice"; password := "123";
              movies := ms1 |} ].
Proof.
  destruct st as [|[i0 n0 p0 ms0] [|[i1 n1 p1 ms1] [|? ?]]]; try done.
  unfold creds; simpl. intros [= -> -> -> -> -> ->]. eauto.
Qed.

(** The token clock against [Date.now()]: a second reading less than 24
    hours minus one second after the first is within the window, one 24
    hours or more after it is outside. *)
Lemma token_clock_window (e e' : Env) :
  (now e' + 1000 ≤ now e + 24 * 60 * 60 * 1000 →
   jwt_clock e' < jwt_clock e + 24 * 60 * 60)
  ∧ (now e + 24 * 60 * 60 * 1000 ≤ now e' →
     jwt_clock e + 24 * 60 * 60 ≤ jwt_clock e').
Proof. unfold jwt_clock. split; intros H; Z.div_mod_to_equations; lia. Qed.

(** C1: in every state the server can reach, logging in with the exact
    username and password of a user of the table is answered 200 with a
    token; in every later state the guard, given "Bearer" and that token,
    attaches that same user (same position in the table, same id and
    name) as long as fewer than 86400 seconds separate the two readings
    of the token clock, and answers 403 from then on.  The token clock
    is the one the library reads, [Date.now()] in whole seconds. *)
Theorem login_token_accepted_for_24h
    (tr tr' : list (Env * Request)) (i : nat) (u : User) (e e' : Env) :
  run users tr !! i = Some u →
  ∃ token,
    login (run users tr) e
      {| lb_username := Js.JString (username u);
         lb_password := Js.JString (password u) |}
    = {| status := 200; body := TokenBody token |}
    ∧ (jwt_clock e' < jwt_clock e + 24 * 60 * 60 →
       ∃ u', authenticateToken (run (run users tr) tr') e'
               (Some ("Bearer " +:+ token)) = inr (i, u')
             ∧ u_id u' = u_id u ∧ username u' = username u)
    ∧ (jwt_clock e + 24 * 60 * 60 ≤ jwt_clock e' →
       authenticateToken (run (run users tr) tr') e'
         (Some ("Bearer " +:+ token)) = inl invalid_token).
Proof.
  intros Hu.
  destruct (creds_users (run users tr) (run_creds _ _)) as (ms0 & ms1 & Hst).
  destruct (creds_users (run (run users tr) tr')) as (ms0' & ms1' & Hst').
  { by rewrite !run_creds. }
  rewrite Hst' in *. rewrite Hst in *. clear Hst Hst'.
  assert (∀ p c, header_token (Some ("Bearer " +:+ Jwt.sign p SECRET_KEY expiresIn c))
                 = Some (Jwt.sign p SECRET_KEY expiresIn c)) as Hhdr.
  { intros p c. destruct (Jwt.sign_wire p SECRET_KEY expiresIn c) as [_ Hsp].
    change ("Bearer " +:+ ?t) with ("Bearer" +:+ String " " t).
    rewrite header_token_scheme by done. by rewrite split_no_sep. }
  assert (∀ st p c, authenticateToken st e'
            (Some ("Bearer " +:+ Jwt.sign p SECRET_KEY expiresIn c))
          = if jwt_clock e' <? c + expiresIn then
              match list_find (λ v : User,
                      Js.strict_eq (Js.JNumber (Js.of_Z (u_id v)))
                        (Js.JNumber (Js.of_Z (Jwt.payload_id p)))) st with
              | None => inl user_not_found
              | Some iu => inr iu
              end
            else inl invalid_token) as Hguard.
  { intros st p c.
    rewrite (guard_token st e' _ _ (Hhdr p c))
      by apply (Jwt.sign_wire p SECRET_KEY expiresIn c).
    rewrite Jwt.sign_verify by apply SECRET_KEY_nonempty.
    by destruct (_ <? _). }
  change (24 * 60 * 60) with expiresIn.
  destruct i as [|[|i]]; simpl in Hu; [| | done]; injection Hu as <-;
    eexists; (split; [reflexivity |]); rewrite Hguard;
    (split; [intros Hlt; apply Z.ltb_lt in Hlt as ->; eexists; by split
            | intros Hge; by apply Z.ltb_ge in Hge as ->]).
Qed.

End Credentials.

(** ** The watchlist handlers *)

Section Watchlist.

Context {J : Jwt.Lib} {P : ProcessEnv}.

Lemma store_movies_lookup (st : Store) (i : nat) (u : User) (ms : list Movie) :
  st !! i = Some u → store_movies st i ms !! i = Some (set_movies ms u).
Proof. intros Hu. unfold store_movies. by rewrite list_lookup_alter_eq, Hu. Qed.

Lemma store_movies_lookup_ne (st : Store) (i k : nat) (ms : list Movie) :
  i ≠ k → store_movies st i ms !! k = st !! k.
Proof. intros Hne. unfold store_movies. by rewrite list_lookup_alter_ne. Qed.

(** Writing back the array that is already there changes nothing. *)
Lemma store_movies_same (st : Store) (i : nat) (u : User) :
  st !! i = Some u → store_movies st i (movies u) = st.
Proof.
  intros Hu. apply list_eq. intros k. destruct (decide (i = k)) as [<-|Hne].
  - rewrite (store_movies_lookup st i u) by done. rewrite Hu. by destruct u.
  - by apply store_movies_lookup_ne.
Qed.

Lemma filter_length_all {A} (Q : A → Prop) `{∀ x, Decision (Q x)} (l : list A) :
  length (filter Q l) = length l → filter Q l = l.
Proof.
  induction l as [|x l IH]; [done |].
  rewrite filter_cons. destruct (decide (Q x)); simpl.
  - intros [= Hlen]. by rewrite IH.
  - pose proof (length_filter Q l). lia.
Qed.

Lemma filter_all {A} (Q : A → Prop) `{∀ x, Decision (Q x)} (l : list A) :
  Forall Q l → filter Q l = l.
Proof.
  induction 1 as [|x l Hx _ IH]; [done |].
  by rewrite filter_cons_True, IH.
Qed.

Lemma strict_eq_bool (v : Js.Val) (b : bool) :
  Js.strict_eq v (Js.JBool b) ↔ v = Js.JBool b.
Proof.
  destruct v as [| |c|n|s|o]; simpl; try (split; [intros [] | done]).
  destruct c, b; simpl; split; done.
Qed.

Lemma strict_eq_string (v : Js.Val) (s : string) :
  Js.strict_eq v (Js.JString s) ↔ v = Js.JString s.
Proof.
  destruct v as [| |c|n|t|o]; simpl; try (split; [intros [] | done]).
  rewrite Is_true_true, String.eqb_eq. split; [by intros -> | by intros [= ->]].
Qed.

(** Filtering only drops entries. *)
Lemma get_movies_sublist (user : User) (q : Js.Val) :
  ∃ ms, get_movies user q = {| status := 200; body := MoviesJson ms |}
        ∧ sublist ms (movies user).
Proof.
  unfold get_movies.
  destruct (Js.strict_eq q _); [| destruct (Js.strict_eq q _)];
    eexists; (split; [reflexivity |]); try apply sublist_filter. done.
Qed.

(** C5: [GET /movies] answers with the whole sequence when there is no
    [status] query or when its value is neither "watched" nor
    "unwatched", with exactly the entries whose [watched] is [true] for
    "watched" and exactly those whose [watched] is [false] for
    "unwatched"; the answer is always a subsequence of the stored one, so
    the relative order is kept. *)
Theorem get_movies_status_filter (user : User) (q : Js.Val) :
  get_movies user Js.JUndefined
  = {| status := 200; body := MoviesJson (movies user) |}
  ∧ get_movies user (Js.JString "watched")
    = {| status := 200;
         body := MoviesJson
                   (filter (λ m, watched m = Js.JBool true) (movies user)) |}
  ∧ get_movies user (Js.JString "unwatched")
    = {| status := 200;
         body := MoviesJson
                   (filter (λ m, watched m = Js.JBool false) (movies user)) |}
  ∧ (q ≠ Js.JString "watched" → q ≠ Js.JString "unwatched" →
     get_movies user q = {| status := 200; body := MoviesJson (movies user) |})
  ∧ ∃ ms, get_movies user q = {| status := 200; body := MoviesJson ms |}
          ∧ sublist ms (movies user).
Proof.
  split; [done |]. split; [| split; [| split]].
  - unfold get_movies; simpl. unfold json. do 2 f_equal.
    apply list_filter_iff. intros m. apply strict_eq_bool.
  - unfold get_movies; simpl. unfold json. do 2 f_equal.
    apply list_filter_iff. intros m. apply strict_eq_bool.
  - intros Hw Hu. unfold get_movies.
    destruct (Js.strict_eq q (Js.JString "watched")) eqn:E1.
    { destruct Hw. apply strict_eq_string. by rewrite E1. }
    destruct (Js.strict_eq q (Js.JString "unwatched")) eqn:E2.
    { destruct Hu. apply strict_eq_string. by rewrite E2. }
    done.
  - apply get_movies_sublist.
Qed.

Lemma find_movie_none (id : Js.Num) (ms : list Movie) :
  (∀ m, m ∈ ms → ¬ id_matches id m) →
  list_find (λ m : Movie, id_matches id m) ms = None.
Proof. intros Hno. apply list_find_None, list.Forall_forall, Hno. Qed.

Lemma find_movie_some (id : Js.Num) (ms : list Movie) (m : Movie) :
  m ∈ ms → id_matches id m →
  ∃ j movie, list_find (λ m : Movie, id_matches id m) ms = Some (j, movie)
             ∧ ms !! j = Some movie ∧ id_matches id movie
             ∧ ∀ k m', ms !! k = Some m' → (k < j)%nat → ¬ id_matches id m'.
Proof.
  intros Hin Hm.
  destruct (list_find_elem_of (λ m : Movie, id_matches id m) ms m Hin Hm)
    as [[j movie] E].
  exists j, movie. split; [done |]. by apply list_find_Some in E.
Qed.

Lemma id_matches_NaN (m : Movie) : id_matches Js.NaN m = false.
Proof. done. Qed.

(** What remains after [DELETE]: the entries with another id, in order. *)
Lemma delete_filter_none (id : Js.Num) (ms : list Movie) :
  (∀ m, m ∈ ms → ¬ id_matches id m) →
  filter (λ m : Movie, negb (id_matches id m)) ms = ms.
Proof.
  intros Hno. apply filter_all, list.Forall_forall. intros m Hm.
  apply negb_True. by apply Hno.
Qed.

(** C8: when the path id coerces to [NaN], the four routes on
    [/movies/:id] answer an authenticated request with 404 "Movie not
    found" and leave the store, hence the user's collection, as it was. *)
Theorem non_numeric_id_not_found
    (st : Store) (e : Env) (a : option string) (id : string) (b : MovieBody)
    (i : nat) (user : User) :
  Js.Number id = Js.NaN →
  authenticateToken st e a = inr (i, user) →
  handle st e (GetMovie a id) = (not_found, st)
  ∧ handle st e (PutMovie a id b) = (not_found, st)
  ∧ handle st e (PatchMovie a id b) = (not_found, st)
  ∧ handle st e (DeleteMovie a id) = (not_found, st).
Proof.
  intros Hnan Hg. pose proof (guard_attaches st e a i user Hg) as Hi.
  assert (list_find (λ m : Movie, id_matches Js.NaN m) (movies user) = None)
    as Hnone.
  { apply find_movie_none. intros m _. rewrite id_matches_NaN. intros []. }
  assert (∀ m, m ∈ movies user → ¬ id_matches Js.NaN m) as Hno.
  { intros m _. rewrite id_matches_NaN. intros []. }
  simpl. unfold protected. rewrite Hg.
  unfold get_movie, put_movie, patch_movie, delete_movie.
  rewrite Hnan, Hnone. repeat split; try done.
  rewrite delete_filter_none by done.
  by rewrite Nat.eqb_refl, store_movies_same.
Qed.

(** C7: [DELETE /movies/:id], authenticated.  If some entry of the
    user's collection has the id, the answer is 204 with an empty body,
    the collection keeps exactly the entries with another id, in order,
    every other user is untouched, and a later [GET /movies/:id] by that
    user for the same id is answered 404.  If no entry has the id, the
    answer is 404 and the store is unchanged. *)
Theorem delete_removes_entry
    (st : Store) (e : Env) (a : option string) (id : string)
    (i : nat) (user : User) :
  authenticateToken st e a = inr (i, user) →
  ((∃ m, m ∈ movies user ∧ id_matches (Js.Number id) m) →
   ∃ st' user',
     handle st e (DeleteMovie a id) = ({| status := 204; body := Empty |}, st')
     ∧ st' !! i = Some user'
     ∧ movies user'
       = filter (λ m : Movie, ¬ id_matches (Js.Number id) m) (movies user)
     ∧ (∀ m, m ∈ movies user' → ¬ id_matches (Js.Number id) m)
     ∧ (∀ k, k ≠ i → st' !! k = st !! k)
     ∧ ∀ e' a' u',
         authenticateToken st' e' a' = inr (i, u') →
         handle st' e' (GetMovie a' id) = (not_found, st'))
  ∧ ((∀ m, m ∈ movies user → ¬ id_matches (Js.Number id) m) →
     handle st e (DeleteMovie a id) = (not_found, st)).
Proof.
  intros Hg. pose proof (guard_attaches st e a i user Hg) as Hi.
  simpl. unfold protected. rewrite Hg. unfold delete_movie.
  set (n := Js.Number id).
  set (ms := filter (λ m : Movie, negb (id_matches n m)) (movies user)).
  assert (∀ m, m ∈ ms → ¬ id_matches n m) as Hgone.
  { intros m [Hm _]%list_elem_of_filter. by apply negb_True. }
  split.
  - intros (m & Hin & Hm).
    assert (length ms < length (movies user))%nat as Hlt.
    { apply (length_filter_lt _ _ m Hin). rewrite negb_True. tauto. }
    apply Nat.lt_neq, Nat.neq_sym, Nat.eqb_neq in Hlt as ->.
    exists (store_movies st i ms), (set_movies ms user).
    split; [done |]. split; [by apply store_movies_lookup |].
    split; [| split; [done |]; split].
    + simpl. subst ms. apply list_filter_iff. intros x. apply negb_True.
    + intros k Hk. by apply store_movies_lookup_ne.
    + intros e' a' u' Hg'. rewrite Hg'. unfold get_movie.
      apply guard_attaches in Hg'.
      rewrite (store_movies_lookup st i user) in Hg' by done.
      injection Hg' as <-. simpl. fold n. by rewrite find_movie_none.
  - intros Hno. subst ms. rewrite delete_filter_none by done.
    by rewrite Nat.eqb_refl, store_movies_same.
Qed.

(** C6: [PATCH /movies/:id], authenticated, on an id that some entry
    has, is answered 200 with the first such entry after the update: its
    id is kept, each of [movietitle], [language] and [watched] is kept
    when absent from the body and replaced by the body's value (for
    [watched], by its boolean coercion) when present.  In the store only
    that position of that user's collection changes, so the length, the
    order and every other entry stay as they were, and with an empty
    body the whole store is unchanged. *)
Theorem patch_updates_present_fields
    (st : Store) (e : Env) (a : option string) (id : string) (b : MovieBody)
    (i : nat) (user : User) (m : Movie) :
  authenticateToken st e a = inr (i, user) →
  m ∈ movies user → id_matches (Js.Number id) m →
  ∃ j movie movie' st' user',
    handle st e (PatchMovie a id b)
    = ({| status := 200; body := MovieJson movie' |}, st')
    ∧ movies user !! j = Some movie ∧ id_matches (Js.Number id) movie
    ∧ m_id movie' = m_id movie
    ∧ (mb_movietitle b = Js.JUndefined → movietitle movie' = movietitle movie)
    ∧ (mb_movietitle b ≠ Js.JUndefined → movietitle movie' = mb_movietitle b)
    ∧ (mb_language b = Js.JUndefined → language movie' = language movie)
    ∧ (mb_language b ≠ Js.JUndefined → language movie' = mb_language b)
    ∧ (mb_watched b = Js.JUndefined → watched movie' = watched movie)
    ∧ (mb_watched b ≠ Js.JUndefined →
       watched movie' = Js.JBool (Js.truthy (mb_watched b)))
    ∧ st' !! i = Some user'
    ∧ creds user' = creds user
    ∧ movies user' = <[j := movie']> (movies user)
    ∧ length (movies user') = length (movies user)
    ∧ (∀ k, k ≠ j → movies user' !! k = movies user !! k)
    ∧ (∀ k, k ≠ i → st' !! k = st !! k)
    ∧ (mb_movietitle b = Js.JUndefined → mb_language b = Js.JUndefined →
       mb_watched b = Js.JUndefined → movie' = movie ∧ st' = st).
Proof.
  intros Hg Hin Hm. pose proof (guard_attaches st e a i user Hg) as Hi.
  destruct (find_movie_some _ _ m Hin Hm) as (j & movie & Hfind & Hj & Hmj & _).
  exists j, movie, (patch_fields movie b).
  exists (store_movies st i (<[j := patch_fields movie b]> (movies user))).
  exists (set_movies (<[j := patch_fields movie b]> (movies user)) user).
  simpl. unfold protected. rewrite Hg. unfold patch_movie. rewrite Hfind.
  assert (∀ v : Js.Val, v ≠ Js.JUndefined → Js.is_undefined v = false) as Hdef.
  { by intros []. }
  split_and!; try done.
  - by intros ->.
  - intros Hp. unfold patch_fields; simpl. by rewrite (Hdef _ Hp).
  - by intros ->.
  - intros Hp. unfold patch_fields; simpl. by rewrite (Hdef _ Hp).
  - by intros ->.
  - intros Hp. unfold patch_fields; simpl. by rewrite (Hdef _ Hp).
  - by apply store_movies_lookup.
  - apply length_insert.
  - intros k Hk. simpl. by apply list_lookup_insert_ne.
  - intros k Hk. by apply store_movies_lookup_ne.
  - intros Ht Hl Hw.
    assert (patch_fields movie b = movie) as ->.
    { unfold patch_fields. rewrite Ht, Hl, Hw. by destruct movie. }
    split; [done |].
    rewrite list_insert_id by done. by apply store_movies_same.
Qed.

End Watchlist.

(** ** What one request does to the store *)

Section Effects.

Context {J : Jwt.Lib} {P : ProcessEnv}.

(** A handler uses the store only to write the acting user's collection
    back: served from two stores to the same user object, a request gets
    the same answer and makes the same update. *)
Lemma handle_uniform (st1 st2 : Store) (e : Env) (r : Request)
    (a : option string) (i : nat) (user : User) :
  request_authorization r = Some a →
  authenticateToken st1 e a = inr (i, user) →
  authenticateToken st2 e a = inr (i, user) →
  (handle st1 e r).1 = (handle st2 e r).1
  ∧ (((handle st1 e r).2 = st1 ∧ (handle st2 e r).2 = st2)
     ∨ ∃ ms, Update e (movies user) r ms
             ∧ (handle st1 e r).2 = store_movies st1 i ms
             ∧ (handle st2 e r).2 = store_movies st2 i ms).
Proof.
  intros Hr H1 H2.
  destruct r as [b|a' q|a' b|a' id|a' id b|a' id b|a' id|];
    simplify_eq/=; unfold protected; rewrite H1, H2; simpl.
  - eauto.
  - unfold post_movies. destruct (_ || _); simpl; [by eauto |].
    split; [done |]. right. eexists. split; [apply Created | done].
  - eauto.
  - unfold put_movie.
    destruct (list_find _ _) as [[j m]|] eqn:E; simpl; [| by eauto].
    destruct (_ || _); simpl; [by eauto |].
    apply list_find_Some in E as [Hj _].
    split; [done |]. right. eexists. split; [by eapply Replaced | done].
  - unfold patch_movie.
    destruct (list_find _ _) as [[j m]|] eqn:E; simpl; [| by eauto].
    apply list_find_Some in E as [Hj _].
    split; [done |]. right. eexists. split; [by eapply Patched | done].
  - unfold delete_movie. destruct (_ =? _)%nat; simpl;
      (split; [done |]); right; eexists; (split; [apply Deleted | done]).
Qed.

(** A request served on nobody's behalf leaves the store alone. *)
Lemma handle_nobody (st : Store) (e : Env) (r : Request) :
  acting_user st e r = None → (handle st e r).2 = st.
Proof.
  unfold acting_user.
  destruct r as [b|a q|a b|a id|a id b|a id b|a id|]; simpl; try done;
    unfold protected; by destruct (authenticateToken st e a) as [res|[i u]].
Qed.

Lemma acting_user_Some (st : Store) (e : Env) (r : Request) (i : nat) :
  acting_user st e r = Some i →
  ∃ a user, request_authorization r = Some a
            ∧ authenticateToken st e a = inr (i, user)
            ∧ st !! i = Some user.
Proof.
  unfold acting_user. destruct (request_authorization r) as [a|]; [| done].
  destruct (authenticateToken st e a) as [res|[k u]] eqn:E; [done |].
  intros [= ->]. exists a, u. split_and!; [done..|]. by eapply guard_attaches.
Qed.

(** The effect of a request served on behalf of the user at [i]. *)
Lemma handle_effect (st : Store) (e : Env) (r : Request) (i : nat) :
  acting_user st e r = Some i →
  ∃ user, st !! i = Some user
          ∧ ((handle st e r).2 = st
             ∨ ∃ ms, Update e (movies user) r ms
                     ∧ (handle st e r).2 = store_movies st i ms).
Proof.
  intros (a & user & Hr & Hg & Hi)%acting_user_Some.
  exists user. split; [done |].
  destruct (handle_uniform st st e r a i user Hr Hg Hg) as [_ [[? _]|(ms & ? & ? & _)]];
    eauto.
Qed.

(** Frame: only the acting user's entry of the table can change. *)
Lemma handle_frame (st : Store) (e : Env) (r : Request) (k : nat) :
  acting_user st e r ≠ Some k → (handle st e r).2 !! k = st !! k.
Proof.
  intros Hk. destruct (acting_user st e r) as [i|] eqn:E.
  - destruct (handle_effect st e r i E) as (user & _ & [-> | (ms & _ & ->)]);
      [done |].
    apply store_movies_lookup_ne. congruence.
  - by rewrite handle_nobody.
Qed.

End Effects.

(** ** Invariants of the collections *)

Section Invariants.

Context {J : Jwt.Lib} {P : ProcessEnv}.

Lemma store_movies_collections (Φ : list Movie → Prop) (st : Store) (i : nat)
    (ms : list Movie) :
  collections Φ st → Φ ms → collections Φ (store_movies st i ms).
Proof. intros Hst Hms. by apply Forall_alter. Qed.

(** A property kept by the updates a request makes is kept by the
    request. *)
Lemma handle_collections (Φ : list Movie → Prop) (st : Store) (e : Env)
    (r : Request) :
  collections Φ st →
  (∀ i user ms,
     acting_user st e r = Some i → st !! i = Some user → Φ (movies user) →
     Update e (movies user) r ms → Φ ms) →
  collections Φ (handle st e r).2.
Proof.
  intros Hst Hupd. destruct (acting_user st e r) as [i|] eqn:E.
  - destruct (handle_effect st e r i E) as (user & Hi & [-> | (ms & Hu & ->)]);
      [done |].
    apply store_movies_collections; [done |].
    apply (Hupd i user ms); [done.. | | done].
    by apply (Forall_lookup_1 _ _ _ _ Hst Hi).
  - by rewrite handle_nobody.
Qed.

Lemma newMovie_watched (e : Env) (b : MovieBody) :
  watched (newMovie e b)
  = if decide (mb_watched b = Js.JUndefined) then Js.JBool false
    else Js.JBool (Js.truthy (mb_watched b)).
Proof. unfold newMovie; simpl. by destruct (mb_watched b). Qed.

Lemma patch_fields_watched (movie : Movie) (b : MovieBody) :
  watched (patch_fields movie b)
  = if decide (mb_watched b = Js.JUndefined) then watched movie
    else Js.JBool (Js.truthy (mb_watched b)).
Proof. unfold patch_fields; simpl. by destruct (mb_watched b). Qed.

Lemma update_watched_boolean (e : Env) (r : Request) (old ms : list Movie) :
  Forall (λ m, is_boolean (watched m)) old →
  Update e old r ms →
  Forall (λ m, is_boolean (watched m)) ms.
Proof.
  intros Hold [a b|a id b j movie Hj|a id b j movie Hj|a id].
  - apply Forall_app. split; [done |]. apply Forall_singleton.
    rewrite newMovie_watched. case_decide; by eexists.
  - apply Forall_insert; [done |]. by eexists.
  - apply Forall_insert; [done |].
    rewrite patch_fields_watched. case_decide; [| by eexists].
    by apply (Forall_lookup_1 _ _ _ _ Hold Hj).
  - apply list.Forall_forall. intros m [_ Hm]%list_elem_of_filter.
    by apply (proj1 (list.Forall_forall _ _) Hold).
Qed.

Lemma handle_watched_boolean (st : Store) (e : Env) (r : Request) :
  watched_boolean st → watched_boolean (handle st e r).2.
Proof.
  intros Hst. apply handle_collections; [done |].
  intros i user ms _ _ Hold Hu. by eapply update_watched_boolean.
Qed.

(** C9: in every state the server can reach, the [watched] field of
    every movie of every user is a boolean.  The three writers of the
    field: create stores [false] when [watched] is absent from the body
    and the boolean coercion of the supplied value otherwise, replace
    stores the coercion of the supplied value, and patch keeps the old
    value when [watched] is absent and stores the coercion otherwise. *)
Theorem watched_always_boolean
    (tr : list (Env * Request)) (e : Env) (b : MovieBody) (movie : Movie) :
  (∀ u m, u ∈ run users tr → m ∈ movies u →
     watched m = Js.JBool true ∨ watched m = Js.JBool false)
  ∧ watched (newMovie e b)
    = (if decide (mb_watched b = Js.JUndefined) then Js.JBool false
       else Js.JBool (Js.truthy (mb_watched b)))
  ∧ watched (put_fields movie b) = Js.JBool (Js.truthy (mb_watched b))
  ∧ watched (patch_fields movie b)
    = (if decide (mb_watched b = Js.JUndefined) then watched movie
       else Js.JBool (Js.truthy (mb_watched b))).
Proof.
  split_and!; [| apply newMovie_watched | done | apply patch_fields_watched].
  assert (∀ st, watched_boolean st → watched_boolean (run st tr)) as Hrun.
  { induction tr as [|[e' r'] tr' IH]; intros st Hst; simpl; [done |].
    by apply IH, handle_watched_boolean. }
  assert (watched_boolean users) as Hinit.
  { repeat constructor. }
  intros u m Hu Hm.
  pose proof (proj1 (list.Forall_forall _ _) (Hrun users Hinit) u Hu) as Hms.
  destruct (proj1 (list.Forall_forall _ _) Hms m Hm) as [[|] ->]; eauto.
Qed.

Lemma update_ids_distinct (e : Env) (r : Request) (old ms : list Movie) :
  NoDup (m_id <$> old) →
  (∀ a b, r = PostMovies a b → generateId e ∉ m_id <$> old) →
  Update e old r ms →
  NoDup (m_id <$> ms).
Proof.
  intros Hold Hfresh Hu. revert Hfresh.
  destruct Hu as [a b|a id b j movie Hj|a id b j movie Hj|a id]; intros Hfresh.
  - rewrite fmap_app. apply list.NoDup_app. split_and!; [done | | apply NoDup_singleton].
    intros x Hx ->%list_elem_of_singleton. exact (Hfresh a b eq_refl Hx).
  - rewrite list_fmap_insert. simpl.
    rewrite list_insert_id; [done |]. by rewrite list_lookup_fmap, Hj.
  - rewrite list_fmap_insert. simpl.
    rewrite list_insert_id; [done |]. by rewrite list_lookup_fmap, Hj.
  - eapply sublist_NoDup; [done |]. apply fmap_sublist, sublist_filter.
Qed.

(** An id generated when the clock has passed every id of a collection
    is new to that collection. *)
Lemma generateId_fresh (e : Env) (ms : list Movie) :
  env_ok e → (∀ m, m ∈ ms → m_id m < now e) → generateId e ∉ m_id <$> ms.
Proof.
  intros He Hlt (m & Hid & Hm)%list_elem_of_fmap.
  specialize (Hlt m Hm). unfold generateId, env_ok in *. lia.
Qed.

(** C4, amended: [generateId] is the clock plus a random number below
    1000 and is not compared with the ids already stored.  Every request
    keeps the ids of every collection pairwise distinct provided that,
    when it is a create, the generated id does not occur in the acting
    user's collection; this is so whenever the clock has passed every id
    stored there, and two creates whose clock readings are at least
    1000 ms apart get different ids. *)
Theorem ids_distinct_without_collision
    (st : Store) (e e' : Env) (r : Request) :
  ids_distinct st →
  (∀ a b i user,
     r = PostMovies a b → authenticateToken st e a = inr (i, user) →
     generateId e ∉ m_id <$> movies user) →
  ids_distinct (handle st e r).2
  ∧ (∀ ms : list Movie, env_ok e → (∀ m, m ∈ ms → m_id m < now e) →
       generateId e ∉ m_id <$> ms)
  ∧ (env_ok e → env_ok e' → now e + 1000 ≤ now e' →
     ∀ b b', m_id (newMovie e b) ≠ m_id (newMovie e' b')).
Proof.
  intros Hst Hfresh. split_and!.
  - apply handle_collections; [done |].
    intros i user ms Hact Hi Hold Hu.
    apply (update_ids_distinct e r (movies user)); [done | | done].
    intros a b ->. apply (Hfresh a b i user); [done |].
    apply acting_user_Some in Hact as (a' & user' & [= <-] & Hg & Hi').
    by simplify_eq.
  - intros ms. apply generateId_fresh.
  - unfold env_ok, newMovie, generateId; simpl. lia.
Qed.

End Invariants.

(** ** Isolation of the users' watchlists *)

Section Isolation.

Context {J : Jwt.Lib} {P : ProcessEnv}.

Lemma list_find_agree {A B} (f : A → B) (Q : A → Prop) `{∀ x, Decision (Q x)}
    (l1 l2 : list A) :
  (∀ x y, f x = f y → Q x ↔ Q y) →
  f <$> l1 = f <$> l2 →
  fst <$> list_find Q l1 = fst <$> list_find Q l2.
Proof.
  intros Hf. revert l2. induction l1 as [|x l1 IH]; intros [|y l2]; try done.
  simpl. intros [= Hxy Hl]. specialize (IH l2 Hl).
  destruct (decide (Q x)) as [Hx|Hx], (decide (Q y)) as [Hy|Hy]; simpl;
    [done | by destruct Hy; apply (Hf x y) | by destruct Hx; apply (Hf x y) |].
  destruct (list_find Q l1) as [[? ?]|], (list_find Q l2) as [[? ?]|];
    simplify_eq/=; done.
Qed.

(** The guard's verdict depends on the store through the credential
    table only. *)
Lemma guard_agree (st1 st2 : Store) (e : Env) (a : option string) :
  creds <$> st1 = creds <$> st2 →
  match authenticateToken st1 e a, authenticateToken st2 e a with
  | inl res1, inl res2 => res1 = res2
  | inr (i1, _), inr (i2, _) => i1 = i2
  | _, _ => False
  end.
Proof.
  intros Hc. unfold authenticateToken.
  destruct (header_token a) as [[|c t]|]; [done | | done].
  destruct (Jwt.verify _ _ _) as [err|d]; [done |].
  pose proof (list_find_agree creds
    (λ u : User, Js.strict_eq (Js.JNumber (Js.of_Z (u_id u))) (Jwt.decoded_id d))
    st1 st2) as Hfind.
  destruct (list_find _ st1) as [[i1 u1]|], (list_find _ st2) as [[i2 u2]|];
    simpl in Hfind; try done.
  all: try (discriminate Hfind; [intros x y [= -> _ _]; done | done]).
  assert (Some i1 = Some i2) as [= ->]; [| done].
  apply Hfind; [| done]. by intros x y [= -> _ _].
Qed.

Lemma acting_user_agree (st1 st2 : Store) (e : Env) (r : Request) :
  creds <$> st1 = creds <$> st2 → acting_user st1 e r = acting_user st2 e r.
Proof.
  intros Hc. unfold acting_user.
  destruct (request_authorization r) as [a|]; [| done].
  pose proof (guard_agree st1 st2 e a Hc) as Hg.
  destruct (authenticateToken st1 e a) as [?|[? ?]],
           (authenticateToken st2 e a) as [?|[? ?]]; by simplify_eq.
Qed.

(** A request of the user is answered, and changes what the user sees,
    in the same way in two stores the user cannot tell apart. *)
Lemma same_view_own (k : nat) (st1 st2 : Store) (e : Env) (r : Request) :
  same_view k st1 st2 → acting_user st1 e r = Some k →
  (handle st1 e r).1 = (handle st2 e r).1
  ∧ same_view k (handle st1 e r).2 (handle st2 e r).2.
Proof.
  intros [Hc Hk] Hact.
  pose proof Hact as Hact2. rewrite (acting_user_agree st1 st2 e r Hc) in Hact2.
  apply acting_user_Some in Hact as (a & user & Hr & Hg1 & Hi1).
  apply acting_user_Some in Hact2 as (a2 & user2 & Hr2 & Hg2 & Hi2).
  rewrite Hk in Hi1. simplify_eq.
  destruct (handle_uniform st1 st2 e r a k user Hr Hg1 Hg2)
    as [Hres [[-> ->]|(ms & _ & -> & ->)]].
  - done.
  - split; [done |]. split; [by rewrite !store_movies_creds |].
    rewrite (store_movies_lookup st1 k user) by congruence.
    by rewrite (store_movies_lookup st2 k user) by done.
Qed.

(** A request of anybody else changes nothing of what the user sees. *)
Lemma same_view_other (k : nat) (st : Store) (e : Env) (r : Request) :
  acting_user st e r ≠ Some k → same_view k (handle st e r).2 st.
Proof. intros Hk. split; [apply handle_creds | by apply handle_frame]. Qed.

Lemma noninterference (k : nat) (tr : list (Env * Request)) (st1 st2 : Store) :
  same_view k st1 st2 →
  own_responses k st1 tr = responses st2 (own_requests k st1 tr)
  ∧ same_view k (run st1 tr) (run st2 (own_requests k st1 tr)).
Proof.
  revert st1 st2. induction tr as [|[e r] tr IH]; intros st1 st2 Hv; [done |].
  simpl. destruct (decide (acting_user st1 e r = Some k)) as [Hact|Hact].
  - destruct (same_view_own k st1 st2 e r Hv Hact) as [Hres Hv'].
    destruct (IH _ _ Hv') as [IH1 IH2]. simpl. by rewrite Hres, IH1.
  - apply IH. destruct (same_view_other k st1 e r Hact) as [Hc Hk].
    destruct Hv as [Hc' Hk']. split; congruence.
Qed.

(** C3: the watchlists are isolated.  For every store, every sequence of
    requests and every user: the answers to that user's requests, and the
    user's collection at the end, are what they would be had only that
    user's requests been served, so nothing another user creates,
    changes or deletes -- whatever id is asked for -- shows in them;
    a request served on behalf of another user, or of nobody, leaves the
    user's entry of the table as it was; and [GET /movies] and
    [GET /movies/:id] answer from the collection of the user the guard
    attached and return entries of that collection only. *)
Theorem watchlists_isolated
    (st : Store) (tr : list (Env * Request)) (k : nat) (e : Env)
    (r : Request) (a : option string) (q : Js.Val) (id : string) :
  own_responses k st tr = responses st (own_requests k st tr)
  ∧ run st tr !! k = run st (own_requests k st tr) !! k
  ∧ (acting_user st e r ≠ Some k → (handle st e r).2 !! k = st !! k)
  ∧ (∀ i user,
       authenticateToken st e a = inr (i, user) →
       st !! i = Some user
       ∧ handle st e (GetMovies a q) = (get_movies user q, st)
       ∧ handle st e (GetMovie a id) = (get_movie user id, st)
       ∧ (∀ ms m, get_movies user q = {| status := 200; body := MoviesJson ms |} →
            m ∈ ms → m ∈ movies user)
       ∧ (∀ m, get_movie user id = {| status := 200; body := MovieJson m |} →
            m ∈ movies user)).
Proof.
  destruct (noninterference k tr st st) as [Hres [_ Hk]]; [done |].
  split_and!; [done | done | apply handle_frame |].
  intros i user Hg. split_and!.
  - by eapply guard_attaches.
  - simpl. unfold protected. by rewrite Hg.
  - simpl. unfold protected. by rewrite Hg.
  - intros ms m Hq Hm.
    destruct (get_movies_sublist user q) as (ms' & Hq' & Hsub).
    rewrite Hq in Hq'. injection Hq' as <-.
    by eapply elem_of_sublist.
  - unfold get_movie.
    destruct (list_find _ _) as [[j movie]|] eqn:E; [| done].
    intros m [= <-]. apply list_find_Some in E as [Hj _].
    by eapply list_elem_of_lookup_2.
Qed.

End Isolation.

(** ** The properties on the small deployment *)

Section Deployment.

Import Scenario.

#[local] Existing Instance ref_lib.
#[local] Existing Instance no_secret.

(** The tokens of the scenario are the ones [POST /login] hands out. *)
Example login_at_t0 :
  login users t0 ashwanth_login = json (TokenBody ashwanth_token)
  ∧ login users t0 alice_login = json (TokenBody alice_token).
Proof. split; vm_compute; reflexivity. Qed.

Lemma login_token_accepted_for_24h_witness :
  run users alice_creates !! 1%nat = Some (alice_with [inception_at_t0])
  ∧ ∃ token,
      login (run users alice_creates) t0 alice_login
      = {| status := 200; body := TokenBody token |}
      ∧ (jwt_clock t2 < jwt_clock t0 + 24 * 60 * 60 →
         ∃ u', authenticateToken (run (run users alice_creates) []) t2
                 (Some ("Bearer " +:+ token)) = inr (1%nat, u')
               ∧ u_id u' = 2 ∧ username u' = "alice")
      ∧ (jwt_clock t0 + 24 * 60 * 60 ≤ jwt_clock t2 →
         authenticateToken (run (run users alice_creates) []) t2
           (Some ("Bearer " +:+ token)) = inl invalid_token).
Proof.
  split; [vm_compute; reflexivity |].
  apply (login_token_accepted_for_24h alice_creates [] 1
           (alice_with [inception_at_t0]) t0 t2).
  vm_compute; reflexivity.
Defined.

Lemma guard_rejections_witness :
  request_authorization (GetMovie None "1700000000008") = Some None
  ∧ handle users t0 (GetMovie None "1700000000008") = (missing_token, users)
  ∧ handle users t0 (GetMovies (bearer "garbage") Js.JUndefined)
    = (invalid_token, users)
  ∧ handle users t0 (GetMovies (bearer (token_at_t0 99 "ghost")) Js.JUndefined)
    = (user_not_found, users).
Proof.
  split_and!; [reflexivity | | |].
  - destruct (guard_rejections users t0 (GetMovie None "1700000000008") None
                eq_refl) as (_ & H & _).
    apply H; reflexivity.
  - destruct (guard_rejections users t0
                (GetMovies (bearer "garbage") Js.JUndefined) _ eq_refl)
      as (_ & _ & _ & H & _).
    apply (H "garbage" Jwt.JsonWebTokenError);
      try (vm_compute; reflexivity); discriminate.
  - destruct (guard_rejections users t0
                (GetMovies (bearer (token_at_t0 99 "ghost")) Js.JUndefined)
                _ eq_refl) as (_ & _ & _ & _ & H).
    apply (H (token_at_t0 99 "ghost")
             (Jwt.decoded_of {| Jwt.payload_id := 99;
                                Jwt.payload_username := "ghost" |}));
      try (vm_compute; reflexivity); try (vm_compute; discriminate).
    intros u Hu. unfold users in Hu.
    repeat (apply elem_of_cons in Hu as [-> | Hu]);
      [reflexivity | reflexivity | apply not_elem_of_nil in Hu; destruct Hu].
Defined.

Lemma watchlists_isolated_witness :
  own_responses 1 users alice_guesses = [not_found; json (MoviesJson [])]
  ∧ run users alice_guesses !! 1%nat = users !! 1%nat.
Proof.
  destruct (watchlists_isolated users alice_guesses 1 t0 OtherEndpoint None
              Js.JUndefined "") as (Hres & Hend & _).
  split.
  - rewrite Hres. vm_compute; reflexivity.
  - rewrite Hend. vm_compute; reflexivity.
Defined.

(** C4, as stated, fails: two identical creates one millisecond apart,
    the second drawing a random number one less than the first, are both
    answered 201 with the same id, and the collection then holds that id
    twice. *)
Lemma create_id_collision :
  env_ok t0 ∧ env_ok t1
  ∧ responses users alice_creates_twice
    = [ status_json 201 (MovieJson inception_at_t0);
        status_json 201 (MovieJson inception_at_t0) ]
  ∧ run users alice_creates_twice !! 1%nat
    = Some (alice_with [inception_at_t0; inception_at_t0])
  ∧ ¬ ids_distinct (run users alice_creates_twice).
Proof.
  split_and!; [unfold env_ok; simpl; lia .. | vm_compute; reflexivity
              | vm_compute; reflexivity |].
  intros Hd.
  assert (run users alice_creates_twice !! 1%nat
          = Some (alice_with [inception_at_t0; inception_at_t0])) as Hu
    by (vm_compute; reflexivity).
  pose proof (Forall_lookup_1 _ _ _ _ Hd Hu) as Hnd. simpl in Hnd.
  apply list.NoDup_cons in Hnd as [Hnotin _]. apply Hnotin, list_elem_of_here.
Qed.

Lemma ids_distinct_without_collision_witness :
  ids_distinct users
  ∧ ids_distinct (handle users t0 (PostMovies (bearer alice_token) inception)).2
  ∧ m_id (newMovie t0 inception) ≠ m_id (newMovie t2 inception).
Proof.
  assert (ids_distinct users) as Hinit by (repeat constructor).
  destruct (ids_distinct_without_collision users t0 t2
              (PostMovies (bearer alice_token) inception) Hinit)
    as (Hstep & _ & Hfar).
  - intros a b i user [= <- <-] Hg. vm_compute in Hg.
    injection Hg as <- <-. apply not_elem_of_nil.
  - split_and!; [exact Hinit | exact Hstep |].
    apply Hfar; unfold env_ok; simpl; lia.
Defined.

Lemma patch_updates_present_fields_witness :
  authenticateToken (run users alice_creates) t1 (bearer alice_token)
  = inr (1%nat, alice_with [inception_at_t0])
  ∧ inception_at_t0 ∈ movies (alice_with [inception_at_t0])
  ∧ id_matches (Js.Number "1700000000008") inception_at_t0
  ∧ ∃ movie movie' st',
      handle (run users alice_creates) t1
        (PatchMovie (bearer alice_token) "1700000000008" only_watched)
      = ({| status := 200; body := MovieJson movie' |}, st')
      ∧ movie ∈ movies (alice_with [inception_at_t0])
      ∧ m_id movie' = m_id movie
      ∧ movietitle movie' = movietitle movie
      ∧ language movie' = language movie
      ∧ watched movie' = Js.JBool true.
Proof.
  assert (authenticateToken (run users alice_creates) t1 (bearer alice_token)
          = inr (1%nat, alice_with [inception_at_t0])) as Hg
    by (vm_compute; reflexivity).
  assert (inception_at_t0 ∈ movies (alice_with [inception_at_t0])) as Hin
    by apply list_elem_of_here.
  assert (Is_true (id_matches (Js.Number "1700000000008") inception_at_t0)) as Hm
    by (vm_compute; exact I).
  split_and!; [exact Hg | exact Hin | exact Hm |].
  destruct (patch_updates_present_fields (run users alice_creates) t1
              (bearer alice_token) "1700000000008" only_watched 1
              (alice_with [inception_at_t0]) inception_at_t0 Hg Hin Hm)
    as (j & movie & movie' & st' & user' & Hh & Hj & _ & Hid & Ht & _ & Hl & _
        & _ & Hw & _).
  exists movie, movie', st'. split_and!; [exact Hh | | exact Hid | | |].
  - eapply list_elem_of_lookup_2, Hj.
  - apply Ht. reflexivity.
  - apply Hl. reflexivity.
  - apply Hw. discriminate.
Defined.

Lemma delete_removes_entry_witness :
  authenticateToken (run users alice_creates) t1 (bearer alice_token)
  = inr (1%nat, alice_with [inception_at_t0])
  ∧ handle (run users alice_creates) t1
      (DeleteMovie (bearer alice_token) "1700000000008")
    = ({| status := 204; body := Empty |}, users)
  ∧ handle users t2 (GetMovie (bearer alice_token) "1700000000008")
    = (not_found, users)
  ∧ handle users t2 (DeleteMovie (bearer alice_token) "1700000000008")
    = (not_found, users).
Proof.
  assert (authenticateToken (run users alice_creates) t1 (bearer alice_token)
          = inr (1%nat, alice_with [inception_at_t0])) as Hg
    by (vm_compute; reflexivity).
  split; [exact Hg |].
  destruct (delete_removes_entry (run users alice_creates) t1
              (bearer alice_token) "1700000000008" 1
              (alice_with [inception_at_t0]) Hg) as [Hpresent _].
  destruct Hpresent as (st' & user' & Hh & _ & _ & _ & _ & Hget).
  { exists inception_at_t0. split; [apply list_elem_of_here |].
    vm_compute; exact I. }
  assert (st' = users) as ->.
  { apply (f_equal snd) in Hh. vm_compute in Hh. symmetry. exact Hh. }
  split_and!; [exact Hh | |].
  - apply (Hget t2 (bearer alice_token) (alice_with [])).
    vm_compute; reflexivity.
  - assert (authenticateToken users t2 (bearer alice_token)
            = inr (1%nat, alice_with [])) as Hg2 by (vm_compute; reflexivity).
    destruct (delete_removes_entry users t2 (bearer alice_token)
                "1700000000008" 1 (alice_with []) Hg2) as [_ Habsent].
    apply Habsent. intros m Hm. apply not_elem_of_nil in Hm. destruct Hm.
Defined.

Lemma non_numeric_id_not_found_witness :
  Js.Number "abc" = Js.NaN
  ∧ authenticateToken (run users alice_creates) t1 (bearer alice_token)
    = inr (1%nat, alice_with [inception_at_t0])
  ∧ handle (run users alice_creates) t1 (GetMovie (bearer alice_token) "abc")
    = (not_found, run users alice_creates)
  ∧ handle (run users alice_creates) t1
      (PutMovie (bearer alice_token) "abc" inception)
    = (not_found, run users alice_creates)
  ∧ handle (run users alice_creates) t1
      (PatchMovie (bearer alice_token) "abc" inception)
    = (not_found, run users alice_creates)
  ∧ handle (run users alice_creates) t1
      (DeleteMovie (bearer alice_token) "abc")
    = (not_found, run users alice_creates).
Proof.
  split; [vm_compute; reflexivity |].
  split; [vm_compute; reflexivity |].
  apply (non_numeric_id_not_found (run users alice_creates) t1
           (bearer alice_token) "abc" inception 1
           (alice_with [inception_at_t0]));
    vm_compute; reflexivity.
Defined.

Lemma guard_scheme_unchecked_witness :
  Jwt.contains " " alice_token = false
  ∧ Jwt.contains " " "Basic" = false
  ∧ authenticateToken users t1 (Some alice_token) = inl missing_token
  ∧ authenticateToken users t1 (Some ("Basic " +:+ alice_token))
    = authenticateToken users t1 (Some ("Bearer " +:+ alice_token))
  ∧ authenticateToken users t1 (Some ("Bearer " +:+ alice_token))
    = inr (1%nat, alice_with []).
Proof.
  assert (Jwt.contains " " alice_token = false) as Ht by (vm_compute; reflexivity).
  assert (Jwt.contains " " "Basic" = false) as Hs by reflexivity.
  destruct (guard_scheme_unchecked users t1 alice_token "Basic" alice_token
              Ht Hs) as (Hbare & _ & _ & Hsame).
  split_and!; [exact Ht | exact Hs | exact Hbare | exact Hsame
              | vm_compute; reflexivity].
Defined.

End Deployment.

(** ** Ids as text and back *)

Section IdText.

#[local] Ltac triple_eq :=
  apply (f_equal2 pair); [apply (f_equal2 pair); [try reflexivity | try lia]
                         | reflexivity].

Lemma digits_uint_acc (d : Decimal.uint) (acc : positive) (count : Z) :
  Js.digits 10 (Z.pos acc) count (DecimalString.NilEmpty.string_of_uint d)
  = (Z.pos (Pos.of_uint_acc d acc),
     count + Z.of_nat (Decimal.nb_digits d), "").
Proof.
  revert acc count.
  induction d as [|d IH|d IH|d IH|d IH|d IH|d IH|d IH|d IH|d IH|d IH];
    intros acc count; simpl.
  { triple_eq. }
  all: match goal with
       | |- Js.digits 10 (_ * 10 + ?k) _ _ = _ =>
           let k' := eval vm_compute in k in change k with k'
       end.
  all: match goal with
       | |- Js.digits 10 ?a _ _ = (Z.pos (Pos.of_uint_acc _ ?b), _, _) =>
           replace a with (Z.pos b) by lia; rewrite IH; triple_eq
       end.
Qed.

(** Reading decimal digits from the left computes the number they
    spell. *)
Lemma digits_uint (d : Decimal.uint) (count : Z) :
  Js.digits 10 0 count (DecimalString.NilEmpty.string_of_uint d)
  = (Z.of_N (Pos.of_uint d), count + Z.of_nat (Decimal.nb_digits d), "").
Proof.
  revert count.
  induction d as [|d IH|d IH|d IH|d IH|d IH|d IH|d IH|d IH|d IH|d IH];
    intros count; simpl.
  { triple_eq. }
  all: match goal with
       | |- Js.digits 10 ?a _ _ = _ =>
           let a' := eval vm_compute in a in change a with a'
       end.
  { rewrite IH. triple_eq. }
  all: rewrite digits_uint_acc; triple_eq.
Qed.

Lemma digits_positive (p : positive) :
  ∃ n, 0 < n
       ∧ Js.digits 10 0 0 (DecimalString.NilEmpty.string_of_uint (Pos.to_uint p))
         = (Z.pos p, n, "").
Proof.
  exists (Z.of_nat (Decimal.nb_digits (Pos.to_uint p))). split.
  - pose proof (DecimalPos.Unsigned.of_to p) as Hp.
    destruct (Pos.to_uint p); [discriminate Hp | simpl; lia ..].
  - by rewrite digits_uint, DecimalPos.Unsigned.of_to.
Qed.

(** An integer below [2^53] is a double: rounding leaves it alone. *)
Lemma round_binary64_integer (z : Z) :
  0 < z < 2 ^ 53 → Js.round_binary64_pos z 1 = Js.Fin (inject_Z z).
Proof.
  intros Hz. unfold Js.round_binary64_pos, Js.floor_log2.
  change (Z.log2 1) with 0. rewrite Z.sub_0_r, Z.mul_1_l.
  pose proof (Z.log2_nonneg z) as Hl0.
  assert (Z.log2 z < 53) as Hl by (apply Z.log2_lt_pow2; lia).
  destruct (Z.log2_spec z) as [Hlo _]; [lia |].
  apply Z.leb_le in Hl0 as Hl0'. rewrite Hl0'.
  apply Z.leb_le in Hlo as ->.
  rewrite Z.max_l by lia.
  assert (inject_Z (2 ^ 1024) <= inject_Z z → False)%Q as Hbig.
  { rewrite <- Zle_Qle. intros Hle.
    assert (2 ^ 53 < 2 ^ 1024) by (apply Z.pow_lt_mono_r; lia). lia. }
  destruct (0 <=? Z.log2 z - 52) eqn:Hp.
  - apply Z.leb_le in Hp. replace (Z.log2 z - 52) with 0 by lia.
    change (2 ^ 0) with 1. rewrite Z.mul_1_l, Z.mul_1_r.
    unfold Js.round_half_even. rewrite Z.div_1_r, Z.mod_1_r. simpl.
    destruct (Qle_bool _ _) eqn:E; [| done].
    by apply Qle_bool_iff in E.
  - apply Z.leb_gt in Hp.
    set (k := - (Z.log2 z - 52)). assert (0 < 2 ^ k) by (apply Z.pow_pos_nonneg; lia).
    unfold Js.round_half_even. rewrite Z.div_1_r, Z.mod_1_r. simpl.
    assert (Qred (z * 2 ^ k # Z.to_pos (2 ^ k)) = inject_Z z) as ->.
    { rewrite <- (inject_Z_Qred z). apply Qred_complete.
      unfold Qeq; simpl. rewrite Z2Pos.id by done. lia. }
    destruct (Qle_bool _ _) eqn:E; [| done].
    by apply Qle_bool_iff in E.
Qed.

Lemma trim_end_uint (d : Decimal.uint) :
  Js.trim_end (DecimalString.NilEmpty.string_of_uint d)
  = DecimalString.NilEmpty.string_of_uint d.
Proof. induction d; simpl; [done | by rewrite IHd ..]. Qed.

Lemma trim_uint (d : Decimal.uint) :
  Js.trim (DecimalString.NilEmpty.string_of_uint d)
  = DecimalString.NilEmpty.string_of_uint d.
Proof. unfold Js.trim. destruct d; simpl; by rewrite ?trim_end_uint. Qed.

(** The text of a positive integer is an unsigned decimal literal, and
    its value is the integer. *)
Lemma unsigned_decimal_positive (p : positive) :
  Z.pos p < 2 ^ 53 →
  Js.unsigned_decimal (DecimalString.NilEmpty.string_of_uint (Pos.to_uint p))
  = Js.of_Z (Z.pos p).
Proof.
  intros Hp. destruct (digits_positive p) as (n & Hn & Hd).
  unfold Js.unsigned_decimal. rewrite Hd.
  assert (String.eqb (DecimalString.NilEmpty.string_of_uint (Pos.to_uint p))
            "Infinity" = false) as ->.
  { destruct (Pos.to_uint p); reflexivity. }
  simpl.
  assert ((n =? 0) = false) as -> by (apply Z.eqb_neq; lia).
  cbv beta iota. simpl.
  rewrite Z.mul_1_r. by apply round_binary64_integer.
Qed.

Lemma Number_positive (p : positive) :
  Js.Number (DecimalString.NilEmpty.string_of_uint (Pos.to_uint p))
  = Js.unsigned_decimal (DecimalString.NilEmpty.string_of_uint (Pos.to_uint p)).
Proof.
  unfold Js.Number. rewrite trim_uint.
  pose proof (DecimalPos.Unsigned.of_to p) as Hp.
  destruct (Pos.to_uint p) as [|d|d|d|d|d|d|d|d|d|d];
    [discriminate Hp | | reflexivity ..].
  destruct d; reflexivity.
Qed.

Lemma Number_integer_text (z : Z) :
  - 2 ^ 53 < z < 2 ^ 53 → Js.Number (integer_to_string z) = Js.of_Z z.
Proof.
  intros Hz. destruct z as [|p|p].
  - reflexivity.
  - simpl. rewrite Number_positive. apply unsigned_decimal_positive. lia.
  - assert (Z.pos p < 2 ^ 53) as Hp by lia.
    unfold integer_to_string, Js.Number, Js.trim.
    change (Js.trim_start (String "-" ?s)) with (String "-" s).
    change (Js.trim_end (String "-" ?s)) with (String "-" (Js.trim_end s)).
    rewrite trim_end_uint. cbv beta iota.
    rewrite (unsigned_decimal_positive p Hp).
    unfold Js.num_neg, Js.of_Z. f_equal.
    change (- inject_Z (Z.pos p))%Q with (inject_Z (Z.neg p)).
    apply inject_Z_Qred.
Qed.

(** X1: [Number] reads back the decimal text of every integer of
    magnitude below [2^53]: the id a response shows, sent back as a path
    id, coerces to that id and so matches exactly the stored movies
    that have it. *)
Theorem Number_integer_to_string (z : Z) (m : Movie) :
  - 2 ^ 53 < z < 2 ^ 53 →
  Js.Number (integer_to_string z) = Js.of_Z z
  ∧ (id_matches (Js.Number (integer_to_string z)) m ↔ m_id m = z).
Proof.
  intros Hz. rewrite Number_integer_text by done. split; [done |].
  unfold id_matches, Js.of_Z. simpl.
  rewrite Is_true_true, Qeq_bool_iff. unfold Qeq. simpl. lia.
Qed.

End IdText.

(** ** Login and the guard in detail *)

Section Access.

Context {J : Jwt.Lib} {P : ProcessEnv}.

Lemma strict_eq_of_string (s : string) (v : Js.Val) :
  Js.strict_eq (Js.JString s) v ↔ v = Js.JString s.
Proof.
  destruct v as [| |c|n|t|o]; simpl; try (split; [intros [] | done]).
  rewrite Is_true_true, String.eqb_eq. split; [by intros -> | by intros [= ->]].
Qed.

Lemma truthy_string (s : string) : Js.truthy (Js.JString s) ↔ s ≠ "".
Proof.
  simpl. rewrite negb_True, Is_true_true, String.eqb_eq. done.
Qed.

(** The test of [users.find] in the login route. *)
Lemma login_match (b : LoginBody) (u : User) :
  Js.strict_eq (Js.JString (username u)) (lb_username b)
  && Js.strict_eq (Js.JString (password u)) (lb_password b)
  ↔ lb_username b = Js.JString (username u)
    ∧ lb_password b = Js.JString (password u).
Proof. by rewrite andb_True, !strict_eq_of_string. Qed.

(** X2: the three outcomes of [POST /login], for any table of users.  A
    falsy or absent username or password is answered 400; otherwise the
    answer is 401 unless both are strings equal to the username and the
    password of one user; the answer is 200 exactly when they are, and
    the token then carries the id and name of the first such user,
    signed with [SECRET_KEY] for 24 hours from the current clock. *)
Theorem login_outcomes (st : Store) (e : Env) (b : LoginBody) :
  (¬ Js.truthy (lb_username b) ∨ ¬ Js.truthy (lb_password b) →
   login st e b = status_json 400 (Message "username and password required"))
  ∧ (Js.truthy (lb_username b) → Js.truthy (lb_password b) →
     (∀ u, u ∈ st →
        ¬ (lb_username b = Js.JString (username u)
           ∧ lb_password b = Js.JString (password u))) →
     login st e b = status_json 401 (Message "Invalid credentials"))
  ∧ (status (login st e b) = 200 ↔
     ∃ u, u ∈ st ∧ lb_username b = Js.JString (username u)
          ∧ lb_password b = Js.JString (password u)
          ∧ username u ≠ "" ∧ password u ≠ "")
  ∧ (∀ token, body (login st e b) = TokenBody token →
     ∃ i u, st !! i = Some u
            ∧ lb_username b = Js.JString (username u)
            ∧ lb_password b = Js.JString (password u)
            ∧ (∀ k v, st !! k = Some v → (k < i)%nat →
                 ¬ (lb_username b = Js.JString (username v)
                    ∧ lb_password b = Js.JString (password v)))
            ∧ token = Jwt.sign {| Jwt.payload_id := u_id u;
                                  Jwt.payload_username := username u |}
                        SECRET_KEY (24 * 60 * 60) (jwt_clock e)).
Proof.
  unfold login, Js.not.
  destruct (Js.truthy (lb_username b)) eqn:Hu, (Js.truthy (lb_password b)) eqn:Hp;
    simpl.
  2-4: split_and!; [done | by intros [] || by intros _ []
                   | split; [done |]; intros (u & _ & Hun & Hpw & Hne1 & Hne2);
                     rewrite ?Hun, ?Hpw in *;
                     first [by apply truthy_string in Hne1; rewrite Hu in Hne1
                           | by apply truthy_string in Hne2; rewrite Hp in Hne2]
                   | done].
  destruct (list_find _ st) as [[i u]|] eqn:E.
  - apply list_find_Some in E as (Hi & Hm & Hfirst).
    apply login_match in Hm as [Hun Hpw].
    split_and!.
    + by intros [[]|[]].
    + intros _ _ Hno. destruct (Hno u); [by eapply list_elem_of_lookup_2 | done].
    + split; [intros _ | done]. exists u.
      split_and!; [by eapply list_elem_of_lookup_2 | done | done | |].
      * apply truthy_string. by rewrite <- Hun, Hu.
      * apply truthy_string. by rewrite <- Hpw, Hp.
    + intros token [= <-]. exists i, u. split_and!; try done.
      intros k v Hk Hlt Hv. by apply (Hfirst k v Hk Hlt), login_match.
  - apply list_find_None in E.
    split_and!.
    + by intros [[]|[]].
    + done.
    + split; [done |]. intros (u & Hin & Hun & Hpw & _).
      destruct (proj1 (list.Forall_forall _ _) E u Hin). by apply login_match.
    + done.
Qed.

Lemma list_find_creds (Q : Z * string * string → Prop) `{∀ c, Decision (Q c)}
    (st1 st2 : Store) :
  creds <$> st1 = creds <$> st2 →
  prod_map id creds <$> list_find (Q ∘ creds) st1
  = prod_map id creds <$> list_find (Q ∘ creds) st2.
Proof. intros Hc. by rewrite <- !list_find_fmap, Hc. Qed.

(** The login route reads the table of credentials and nothing else. *)
Lemma login_creds (st1 st2 : Store) (e : Env) (b : LoginBody) :
  creds <$> st1 = creds <$> st2 → login st1 e b = login st2 e b.
Proof.
  intros Hc. unfold login. destruct (_ || _); [done |].
  pose proof (list_find_creds
    (λ c, Js.strict_eq (Js.JString c.1.2) (lb_username b)
          && Js.strict_eq (Js.JString c.2) (lb_password b)) st1 st2 Hc) as Hf.
  unfold compose in Hf. simpl in Hf.
  destruct (list_find _ st1) as [[i1 u1]|], (list_find _ st2) as [[i2 u2]|];
    simplify_eq/=; try done.
  congruence.
Qed.

(** X3: no request creates, deletes or changes a user.  After any
    sequence of requests, from any table, the ids, usernames and
    passwords are those of the table at the start, in the same order,
    and a login is answered as it would have been at the start. *)
Theorem credentials_immutable
    (st : Store) (tr : list (Env * Request)) (e : Env) (b : LoginBody) :
  ((λ u, (u_id u, username u, password u)) <$> run st tr)
  = ((λ u, (u_id u, username u, password u)) <$> st)
  ∧ length (run st tr) = length st
  ∧ login (run st tr) e b = login st e b.
Proof.
  pose proof (run_creds st tr) as Hc. split_and!.
  - exact Hc.
  - by rewrite <- (length_fmap creds), Hc, length_fmap.
  - by apply login_creds.
Qed.

(** X4: the guard lets a request through only with a verified token.
    Whenever it attaches a user, the header's second space-separated
    segment is a non-empty token that [jwt.verify] accepts under
    [SECRET_KEY] at the current clock, the id it carries is a number
    equal to the user's id (a string such as "1" does not count), and
    the user is the first one of the table with that id. *)
Theorem guard_sound
    (st : Store) (e : Env) (a : option string) (i : nat) (u : User) :
  authenticateToken st e a = inr (i, u) →
  ∃ h token decoded q,
    a = Some h
    ∧ Js.split " " h !! 1%nat = Some token
    ∧ token ≠ ""
    ∧ Jwt.verify token SECRET_KEY (jwt_clock e) = inr decoded
    ∧ Jwt.decoded_id decoded = Js.JNumber (Js.Fin q)
    ∧ (q == inject_Z (u_id u))%Q
    ∧ st !! i = Some u
    ∧ ∀ k v, st !! k = Some v → (k < i)%nat → u_id v ≠ u_id u.
Proof.
  unfold authenticateToken.
  destruct a as [h|]; [| done]. unfold header_token.
  destruct (String.eqb h "") eqn:Hh; [done |].
  destruct (Js.split " " h !! 1%nat) as [[|c t]|] eqn:Ht; [done | | done].
  destruct (Jwt.verify _ _ _) as [err|d] eqn:Hv; [done |].
  destruct (list_find _ st) as [[j v]|] eqn:E; [| done].
  intros [= -> ->]. apply list_find_Some in E as (Hi & Hm & Hfirst).
  destruct (Jwt.decoded_id d) as [| |x|[| |q]|x|x] eqn:Hd; simpl in Hm; try done.
  apply Is_true_true, Qeq_bool_iff in Hm.
  exists h, (String c t), d, q. split_and!; try done.
  intros k w Hk Hlt Heq. apply (Hfirst k w Hk Hlt).
  rewrite ?Hd. simpl. apply Is_true_true, Qeq_bool_iff. by rewrite Heq.
Qed.

(** X5: only the second segment of the header counts.  Whatever follows
    a further space after the token is ignored, so such a header is
    treated like "Bearer" followed by the token alone; a header whose
    scheme word is followed by two spaces, or by one space and nothing,
    has an empty second segment and is answered 401 "Missing token". *)
Theorem guard_reads_second_segment
    (st : Store) (e : Env) (scheme token rest : string) :
  Jwt.contains " " scheme = false →
  Jwt.contains " " token = false →
  authenticateToken st e (Some (scheme +:+ " " +:+ token +:+ " " +:+ rest))
  = authenticateToken st e (Some ("Bearer " +:+ token))
  ∧ authenticateToken st e (Some (scheme +:+ "  " +:+ rest)) = inl missing_token
  ∧ authenticateToken st e (Some (scheme +:+ " ")) = inl missing_token.
Proof.
  intros Hs Ht.
  change (scheme +:+ " " +:+ token +:+ " " +:+ rest)
    with (scheme +:+ String " " (token +:+ String " " rest)).
  change ("Bearer " +:+ token) with ("Bearer" +:+ String " " token).
  change (scheme +:+ "  " +:+ rest)
    with (scheme +:+ String " " ("" +:+ String " " rest)).
  change (scheme +:+ " ") with (scheme +:+ String " " "").
  unfold authenticateToken.
  rewrite !header_token_scheme by done.
  rewrite !split_at_first by done.
  rewrite (split_no_sep " " token) by done.
  simpl. done.
Qed.


(** X7: a request that is refused has no effect.  Whenever the answer
    has a status of 400 or more -- from the guard, from validation, or
    because the id is unknown -- the store after the request is the store
    before it. *)
Theorem refused_request_changes_nothing (st : Store) (e : Env) (r : Request) :
  400 ≤ status (handle st e r).1 → (handle st e r).2 = st.
Proof.
  destruct r as [b|a q|a b|a id|a id b|a id b|a id|]; simpl; try done;
    unfold protected;
    destruct (authenticateToken st e a) as [res|[i u]] eqn:Hg; simpl; try done.
  - unfold post_movies. destruct (_ || _); simpl; [done | lia].
  - unfold put_movie. destruct (list_find _ _) as [[j m]|]; [| done].
    destruct (_ || _); simpl; [done | lia].
  - unfold patch_movie. destruct (list_find _ _) as [[j m]|]; simpl; [lia | done].
  - apply guard_attaches in Hg. unfold delete_movie.
    destruct (_ =? _)%nat eqn:E; simpl; [intros _ | lia].
    apply Nat.eqb_eq in E. symmetry in E.
    rewrite (filter_length_all _ _ E). by apply store_movies_same.
Qed.

End Access.

(** ** The watchlist handlers in detail *)

Section Collections.

Context {J : Jwt.Lib} {P : ProcessEnv}.

(** After the acting user's collection is written back, the guard
    attaches the user with that collection. *)
Lemma guard_after_store (st : Store) (i : nat) (user u' : User)
    (ms : list Movie) (e' : Env) (a' : option string) :
  st !! i = Some user →
  authenticateToken (store_movies st i ms) e' a' = inr (i, u') →
  u' = set_movies ms user.
Proof.
  intros Hi Hg. apply guard_attaches in Hg.
  rewrite (store_movies_lookup st i user) in Hg by done. congruence.
Qed.

Lemma store_movies_twice (st : Store) (i : nat) (ms ms' : list Movie) :
  store_movies (store_movies st i ms) i ms' = store_movies st i ms'.
Proof.
  apply list_eq. intros k. unfold store_movies.
  destruct (decide (i = k)) as [<-|Hne].
  - rewrite !list_lookup_alter_eq. by destruct (st !! i).
  - by rewrite !list_lookup_alter_ne.
Qed.

(** Comparing a stored id with an integer path id is comparing
    integers. *)
Lemma id_matches_of_Z (z : Z) (m : Movie) :
  id_matches (Js.of_Z z) m ↔ m_id m = z.
Proof.
  unfold id_matches, Js.of_Z. simpl.
  rewrite Is_true_true, Qeq_bool_iff. unfold Qeq. simpl. lia.
Qed.

(** Overwriting the entry that [find] returns with one that still
    passes the test keeps it the entry that [find] returns. *)
Lemma find_after_insert (id : Js.Num) (ms : list Movie) (j : nat)
    (m m' : Movie) :
  list_find (λ m : Movie, id_matches id m) ms = Some (j, m) →
  id_matches id m' →
  list_find (λ m : Movie, id_matches id m) (<[j := m']> ms) = Some (j, m').
Proof.
  intros (Hj & _ & Hfirst)%list_find_Some Hm'. apply list_find_Some.
  split_and!.
  - apply list_lookup_insert_eq. by eapply lookup_lt_Some.
  - done.
  - intros k y Hk Hlt. rewrite list_lookup_insert_ne in Hk by lia.
    by apply (Hfirst k y).
Qed.

(** X8: [POST /movies], authenticated.  If [movietitle] or [language] is
    absent or falsy the answer is 400 and nothing changes.  Otherwise the
    answer is 201 with the new movie, whose id is the clock plus the
    random number and whose title and language are the body's values as
    they came, of whatever type; the movie is appended at the end of the
    acting user's collection, the entries before it and every other user
    stay as they were, and a following [GET /movies] by that user
    returns the old list followed by the new movie. *)
Theorem create_appends
    (st : Store) (e : Env) (a : option string) (b : MovieBody)
    (i : nat) (user : User) :
  authenticateToken st e a = inr (i, user) →
  (¬ Js.truthy (mb_movietitle b) ∨ ¬ Js.truthy (mb_language b) →
   handle st e (PostMovies a b)
   = (status_json 400 (Message "movietitle and language are required"), st))
  ∧ (Js.truthy (mb_movietitle b) → Js.truthy (mb_language b) →
     ∃ movie st',
       handle st e (PostMovies a b)
       = ({| status := 201; body := MovieJson movie |}, st')
       ∧ m_id movie = now e + random1000 e
       ∧ movietitle movie = mb_movietitle b
       ∧ language movie = mb_language b
       ∧ st' !! i = Some (set_movies (movies user ++ [movie]) user)
       ∧ (∀ k, k ≠ i → st' !! k = st !! k)
       ∧ ∀ e' a' u',
           authenticateToken st' e' a' = inr (i, u') →
           handle st' e' (GetMovies a' Js.JUndefined)
           = ({| status := 200; body := MoviesJson (movies user ++ [movie]) |},
              st')).
Proof.
  intros Hg. pose proof (guard_attaches st e a i user Hg) as Hi.
  simpl. unfold protected. rewrite Hg. unfold post_movies, Js.not.
  split.
  - intros [Hf | Hf]; apply negb_True, Is_true_true in Hf; rewrite Hf; simpl;
      [done | by rewrite orb_true_r].
  - intros Ht Hl. apply Is_true_true in Ht, Hl. rewrite Ht, Hl. simpl.
    eexists _, _. split; [reflexivity |].
    split_and!; try done.
    + by apply store_movies_lookup.
    + intros k Hk. by apply store_movies_lookup_ne.
    + intros e' a' u' Hg'. rewrite Hg'.
      by rewrite (guard_after_store st i user u' _ e' a' Hi Hg').
Qed.

(** X9: a created movie can be fetched by the id the answer shows.  When
    the generated id is not yet in the acting user's collection and lies
    below [2^53], a later [GET /movies/:id] by that user, with the id
    written in decimal, is answered 200 with exactly the movie that
    [POST /movies] returned. *)
Theorem create_then_get
    (st : Store) (e : Env) (a : option string) (b : MovieBody)
    (i : nat) (user : User) :
  authenticateToken st e a = inr (i, user) →
  Js.truthy (mb_movietitle b) → Js.truthy (mb_language b) →
  - 2 ^ 53 < generateId e < 2 ^ 53 →
  generateId e ∉ m_id <$> movies user →
  ∃ movie st',
    handle st e (PostMovies a b)
    = ({| status := 201; body := MovieJson movie |}, st')
    ∧ ∀ e' a' u',
        authenticateToken st' e' a' = inr (i, u') →
        handle st' e' (GetMovie a' (integer_to_string (m_id movie)))
        = ({| status := 200; body := MovieJson movie |}, st').
Proof.
  intros Hg Ht Hl Hrange Hfresh.
  pose proof (guard_attaches st e a i user Hg) as Hi.
  simpl. unfold protected. rewrite Hg. unfold post_movies, Js.not.
  apply Is_true_true in Ht, Hl. rewrite Ht, Hl. simpl.
  eexists _, _. split; [reflexivity |].
  intros e' a' u' Hg'. rewrite Hg'.
  rewrite (guard_after_store st i user u' _ e' a' Hi Hg').
  unfold get_movie. simpl. rewrite Number_integer_text by done.
  rewrite list_find_app_r.
  - simpl. rewrite decide_True; [done |]. by apply id_matches_of_Z.
  - apply find_movie_none. intros m Hm Hid. apply id_matches_of_Z in Hid.
    apply Hfresh. rewrite <- Hid. by apply list_elem_of_fmap_2.
Qed.

(** X10: deleting a movie just created undoes the creation.  When the
    generated id is not yet in the acting user's collection and lies
    below [2^53], a [DELETE /movies/:id] by the same user with the id of
    the new movie, written in decimal, is answered 204 and leaves the
    store exactly as it was before the movie was created. *)
Theorem create_then_delete
    (st : Store) (e : Env) (a : option string) (b : MovieBody)
    (i : nat) (user : User) :
  authenticateToken st e a = inr (i, user) →
  Js.truthy (mb_movietitle b) → Js.truthy (mb_language b) →
  - 2 ^ 53 < generateId e < 2 ^ 53 →
  generateId e ∉ m_id <$> movies user →
  ∃ movie st',
    handle st e (PostMovies a b)
    = ({| status := 201; body := MovieJson movie |}, st')
    ∧ ∀ e' a' u',
        authenticateToken st' e' a' = inr (i, u') →
        handle st' e' (DeleteMovie a' (integer_to_string (m_id movie)))
        = ({| status := 204; body := Empty |}, st).
Proof.
  intros Hg Ht Hl Hrange Hfresh.
  pose proof (guard_attaches st e a i user Hg) as Hi.
  simpl. unfold protected. rewrite Hg. unfold post_movies, Js.not.
  apply Is_true_true in Ht, Hl. rewrite Ht, Hl. simpl.
  eexists _, _. split; [reflexivity |].
  intros e' a' u' Hg'. rewrite Hg'.
  rewrite (guard_after_store st i user u' _ e' a' Hi Hg').
  unfold delete_movie. simpl. rewrite Number_integer_text by done.
  rewrite list.filter_app, filter_cons_False, filter_nil, app_nil_r.
  - rewrite delete_filter_none.
    + rewrite length_app. simpl.
      replace (length (movies user) + 1 =? length (movies user))%nat
        with false by (symmetry; apply Nat.eqb_neq; lia).
      rewrite store_movies_twice. by rewrite store_movies_same.
    + intros m Hm Hid. apply id_matches_of_Z in Hid.
      apply Hfresh. rewrite <- Hid. by apply list_elem_of_fmap_2.
  - rewrite negb_True. intros Hno. apply Hno. by apply id_matches_of_Z.
Qed.

End Collections.

(** ** Replace, patch, delete and the filtered list in detail *)

Section Updates.

Context {J : Jwt.Lib} {P : ProcessEnv}.

Lemma defined_not_undefined (v : Js.Val) :
  v ≠ Js.JUndefined → Js.is_undefined v = false.
Proof. by destruct v. Qed.

(** X11: [PUT /movies/:id], authenticated.  An id that no entry has is
    answered 404 whatever the body; an id that some entry has, with any
    of the three fields absent, is answered 400; in both cases nothing
    changes.  With the three fields present the answer is 200 and the
    first entry with the id gets the body's title and language as they
    came -- [null] or the empty string included, which create would
    refuse -- and the boolean coercion of [watched]; its id, every other
    entry and every other user stay as they were. *)
Theorem put_outcomes
    (st : Store) (e : Env) (a : option string) (id : string) (b : MovieBody)
    (i : nat) (user : User) :
  authenticateToken st e a = inr (i, user) →
  ((∀ m, m ∈ movies user → ¬ id_matches (Js.Number id) m) →
   handle st e (PutMovie a id b) = (not_found, st))
  ∧ (∀ m, m ∈ movies user → id_matches (Js.Number id) m →
     (mb_movietitle b = Js.JUndefined ∨ mb_language b = Js.JUndefined
      ∨ mb_watched b = Js.JUndefined →
      handle st e (PutMovie a id b)
      = (status_json 400
           (Message "movietitle, language and watched are required for full update"),
         st))
     ∧ (mb_movietitle b ≠ Js.JUndefined → mb_language b ≠ Js.JUndefined →
        mb_watched b ≠ Js.JUndefined →
        ∃ j movie st',
          let movie' :=
            {| m_id := m_id movie;
               movietitle := mb_movietitle b;
               language := mb_language b;
               watched := Js.JBool (Js.truthy (mb_watched b)) |} in
          handle st e (PutMovie a id b)
          = ({| status := 200; body := MovieJson movie' |}, st')
          ∧ movies user !! j = Some movie
          ∧ id_matches (Js.Number id) movie
          ∧ (∀ k m', movies user !! k = Some m' → (k < j)%nat →
               ¬ id_matches (Js.Number id) m')
          ∧ st' !! i = Some (set_movies (<[j := movie']> (movies user)) user)
          ∧ (∀ k, k ≠ i → st' !! k = st !! k))).
Proof.
  intros Hg. pose proof (guard_attaches st e a i user Hg) as Hi.
  simpl. unfold protected. rewrite Hg. unfold put_movie. split.
  - intros Hno. by rewrite find_movie_none.
  - intros m Hin Hm.
    destruct (find_movie_some _ _ m Hin Hm) as (j & movie & -> & Hj & Hmj & Hfirst).
    split.
    + intros [-> | [-> | ->]]; simpl; [done | by rewrite orb_true_r ..].
    + intros Ht Hl Hw. rewrite !defined_not_undefined by done. simpl.
      exists j, movie. eexists. split; [reflexivity |].
      split_and!; try done.
      * by apply store_movies_lookup.
      * intros k Hk. by apply store_movies_lookup_ne.
Qed.

(** What a successful replace or patch answers and stores. *)
Lemma update_result (st : Store) (e : Env) (a : option string) (id : string)
    (b : MovieBody) (i : nat) (user : User) (r : Request) :
  authenticateToken st e a = inr (i, user) →
  r = PutMovie a id b ∨ r = PatchMovie a id b →
  status (handle st e r).1 = 200 →
  ∃ j movie movie',
    list_find (λ m : Movie, id_matches (Js.Number id) m) (movies user)
    = Some (j, movie)
    ∧ (r = PutMovie a id b ∧ movie' = put_fields movie b
         ∧ (Js.is_undefined (mb_movietitle b) || Js.is_undefined (mb_language b)
            || Js.is_undefined (mb_watched b)) = false
       ∨ r = PatchMovie a id b ∧ movie' = patch_fields movie b)
    ∧ handle st e r
      = (json (MovieJson movie'),
         store_movies st i (<[j := movie']> (movies user))).
Proof.
  intros Hg [-> | ->]; simpl; unfold protected; rewrite Hg;
    unfold put_movie, patch_movie;
    (destruct (list_find _ _) as [[j movie]|]; [| done]).
  - destruct (_ || _) eqn:E; [done |]. intros _.
    exists j, movie, (put_fields movie b). split_and!; [done | by left | done].
  - intros _. exists j, movie, (patch_fields movie b).
    split_and!; [done | by right | done].
Qed.

(** X12: a user reads back what they wrote.  After a [PUT] or [PATCH] of
    [/movies/:id] answered 200, a [GET] of the same path by the same
    user is answered with the very same body, even if other entries
    share the id. *)
Theorem update_then_get
    (st : Store) (e : Env) (a : option string) (id : string) (b : MovieBody)
    (i : nat) (user : User) (r : Request) :
  authenticateToken st e a = inr (i, user) →
  r = PutMovie a id b ∨ r = PatchMovie a id b →
  status (handle st e r).1 = 200 →
  ∀ e' a' u',
    authenticateToken (handle st e r).2 e' a' = inr (i, u') →
    handle (handle st e r).2 e' (GetMovie a' id)
    = ((handle st e r).1, (handle st e r).2).
Proof.
  intros Hg Hr Hok e' a' u'.
  pose proof (guard_attaches st e a i user Hg) as Hi.
  destruct (update_result st e a id b i user r Hg Hr Hok)
    as (j & movie & movie' & Hfind & Hkind & ->).
  simpl. intros Hg'. unfold protected. rewrite Hg'.
  rewrite (guard_after_store st i user u' _ e' a' Hi Hg').
  unfold get_movie. simpl.
  rewrite (find_after_insert _ _ j movie movie' Hfind); [done |].
  apply list_find_Some in Hfind as (_ & Hm & _).
  by destruct Hkind as [(_ & -> & _) | (_ & ->)].
Qed.

Lemma patch_fields_twice (movie : Movie) (b : MovieBody) :
  patch_fields (patch_fields movie b) b = patch_fields movie b.
Proof.
  unfold patch_fields. simpl.
  by destruct (Js.is_undefined (mb_movietitle b)),
    (Js.is_undefined (mb_language b)), (Js.is_undefined (mb_watched b)).
Qed.

(** X13: replace and patch are idempotent.  Repeating a [PUT] or a
    [PATCH] that was answered 200, with the same path and body, is
    answered with the same body again and leaves the store as the first
    one left it. *)
Theorem update_idempotent
    (st : Store) (e : Env) (a : option string) (id : string) (b : MovieBody)
    (i : nat) (user : User) (r : Request) :
  authenticateToken st e a = inr (i, user) →
  r = PutMovie a id b ∨ r = PatchMovie a id b →
  status (handle st e r).1 = 200 →
  ∀ e' a' u',
    authenticateToken (handle st e r).2 e' a' = inr (i, u') →
    handle (handle st e r).2 e'
      (match r with
       | PutMovie _ _ _ => PutMovie a' id b
       | _ => PatchMovie a' id b
       end)
    = ((handle st e r).1, (handle st e r).2).
Proof.
  intros Hg Hr Hok e' a' u'.
  pose proof (guard_attaches st e a i user Hg) as Hi.
  destruct (update_result st e a id b i user r Hg Hr Hok)
    as (j & movie & movie' & Hfind & Hkind & ->).
  simpl. intros Hg'.
  pose proof (guard_after_store st i user u' _ e' a' Hi Hg') as ->.
  assert (id_matches (Js.Number id) movie') as Hm'.
  { apply list_find_Some in Hfind as (_ & Hm & _).
    by destruct Hkind as [(_ & -> & _) | (_ & ->)]. }
  pose proof (find_after_insert _ _ j movie movie' Hfind Hm') as Hfind'.
  destruct Hkind as [(-> & -> & Hdef) | (-> & ->)]; simpl;
    unfold protected; rewrite Hg'; unfold put_movie, patch_movie; simpl;
    rewrite Hfind'; rewrite ?Hdef; rewrite ?patch_fields_twice;
    by rewrite list_insert_insert_eq, store_movies_twice.
Qed.

(** X14: a patch that supplies the three fields is a replace.  For any
    body in which [movietitle], [language] and [watched] are all present,
    [PATCH /movies/:id] and [PUT /movies/:id] give the same answer and
    the same store, whatever the header, the id and the store. *)
Theorem patch_full_is_put
    (st : Store) (e : Env) (a : option string) (id : string) (b : MovieBody) :
  mb_movietitle b ≠ Js.JUndefined → mb_language b ≠ Js.JUndefined →
  mb_watched b ≠ Js.JUndefined →
  handle st e (PatchMovie a id b) = handle st e (PutMovie a id b).
Proof.
  intros Ht Hl Hw. simpl. unfold protected.
  destruct (authenticateToken st e a) as [res|[i user]]; [done |].
  unfold patch_movie, put_movie, patch_fields, put_fields.
  rewrite !defined_not_undefined by done. simpl.
  by destruct (list_find _ _) as [[j movie]|].
Qed.

Lemma filter_length_split {A} (Q : A → bool) (l : list A) :
  length l
  = (length (filter (λ x, negb (Q x)) l) + length (filter (λ x, Q x) l))%nat.
Proof.
  induction l as [|x l IH]; [done |].
  rewrite !filter_cons. destruct (Q x); simpl; lia.
Qed.

(** X15: [DELETE /movies/:id], authenticated, removes every entry with
    the id, not only the first: the collection shrinks by the number of
    entries that have the id and what remains is a subsequence of what
    was there.  A second [DELETE] of the same path by the same user is
    answered 404 and changes nothing. *)
Theorem delete_removes_all_then_404
    (st : Store) (e : Env) (a : option string) (id : string)
    (i : nat) (user : User) :
  authenticateToken st e a = inr (i, user) →
  ∃ user',
    (handle st e (DeleteMovie a id)).2 !! i = Some user'
    ∧ sublist (movies user') (movies user)
    ∧ (∀ m, m ∈ movies user' → ¬ id_matches (Js.Number id) m)
    ∧ length (movies user)
      = (length (movies user')
         + length (filter (λ m : Movie, id_matches (Js.Number id) m)
                     (movies user)))%nat
    ∧ ∀ e' a' u',
        authenticateToken (handle st e (DeleteMovie a id)).2 e' a' = inr (i, u') →
        handle (handle st e (DeleteMovie a id)).2 e' (DeleteMovie a' id)
        = (not_found, (handle st e (DeleteMovie a id)).2).
Proof.
  intros Hg. pose proof (guard_attaches st e a i user Hg) as Hi.
  set (ms := filter (λ m : Movie, negb (id_matches (Js.Number id) m)) (movies user)).
  assert ((handle st e (DeleteMovie a id)).2 = store_movies st i ms) as ->.
  { simpl. unfold protected. rewrite Hg. unfold delete_movie.
    by destruct (_ =? _)%nat. }
  assert (∀ m, m ∈ ms → ¬ id_matches (Js.Number id) m) as Hgone.
  { intros m [Hm _]%list_elem_of_filter. by apply negb_True. }
  exists (set_movies ms user). split_and!.
  - by apply store_movies_lookup.
  - apply sublist_filter.
  - done.
  - apply filter_length_split.
  - intros e' a' u' Hg'. simpl. unfold protected. rewrite Hg'.
    rewrite (guard_after_store st i user u' _ e' a' Hi Hg').
    unfold delete_movie. simpl. rewrite delete_filter_none by done.
    by rewrite Nat.eqb_refl, store_movies_twice.
Qed.

Lemma run_watched_boolean (st : Store) (tr : list (Env * Request)) :
  watched_boolean st → watched_boolean (run st tr).
Proof.
  revert st. induction tr as [|[e r] tr IH]; intros st Hst; simpl; [done |].
  by apply IH, handle_watched_boolean.
Qed.

Lemma filter_bool_partition (l : list Movie) :
  Forall (λ m, is_boolean (watched m)) l →
  filter (λ m, Js.strict_eq (watched m) (Js.JBool true)) l
  ++ filter (λ m, Js.strict_eq (watched m) (Js.JBool false)) l ≡ₚ l.
Proof.
  induction 1 as [|m l [[|] Hm] _ IH]; [done | |];
    rewrite !filter_cons, Hm; simpl.
  - by rewrite IH.
  - by rewrite <- Permutation_middle, IH.
Qed.

(** X16: in every state the server can reach, the "watched" list and the
    "unwatched" list of a user split that user's collection: together
    they hold every movie exactly as often as the collection does, and
    no movie of one is in the other. *)
Theorem watched_unwatched_split (tr : list (Env * Request)) (u : User) :
  u ∈ run users tr →
  ∃ ws us,
    get_movies u (Js.JString "watched")
    = {| status := 200; body := MoviesJson ws |}
    ∧ get_movies u (Js.JString "unwatched")
      = {| status := 200; body := MoviesJson us |}
    ∧ ws ++ us ≡ₚ movies u
    ∧ (length ws + length us = length (movies u))%nat
    ∧ ∀ m, m ∈ ws → m ∉ us.
Proof.
  intros Hu.
  assert (watched_boolean (run users tr)) as Hinv.
  { apply run_watched_boolean. repeat constructor. }
  pose proof (proj1 (list.Forall_forall _ _) Hinv u Hu) as Hms.
  eexists _, _. split; [reflexivity |]. split; [reflexivity |].
  pose proof (filter_bool_partition (movies u) Hms) as Hperm.
  split_and!.
  - done.
  - by rewrite <- length_app, Hperm.
  - intros m [Hw _]%list_elem_of_filter [Hn _]%list_elem_of_filter.
    apply strict_eq_bool in Hw, Hn. congruence.
Qed.

(** X17: [GET /movies/:id] answers 404 exactly when no entry of the
    user's collection has the id, and otherwise returns the first entry
    that has it; the path id then is a finite number equal to the id of
    that entry. *)
Theorem get_movie_first_match (user : User) (id : string) :
  (get_movie user id = not_found ↔
   ∀ m, m ∈ movies user → ¬ id_matches (Js.Number id) m)
  ∧ ∀ m, get_movie user id = {| status := 200; body := MovieJson m |} →
      ∃ j q, movies user !! j = Some m
             ∧ Js.Number id = Js.Fin q
             ∧ (q == inject_Z (m_id m))%Q
             ∧ ∀ k m', movies user !! k = Some m' → (k < j)%nat →
                 m_id m' ≠ m_id m.
Proof.
  unfold get_movie.
  destruct (list_find _ _) as [[j movie]|] eqn:E.
  - apply list_find_Some in E as (Hj & Hm & Hfirst). split.
    + split; [done |]. intros Hno. destruct (Hno movie); [| done].
      by eapply list_elem_of_lookup_2.
    + intros m [= <-]. unfold id_matches in *.
      destruct (Js.Number id) as [| |q] eqn:Hn; simpl in Hm; try done.
      apply Is_true_true, Qeq_bool_iff in Hm.
      exists j, q. split_and!; [done | done | by symmetry |].
      intros k m' Hk Hlt Heq. apply (Hfirst k m' Hk Hlt). simpl.
      apply Is_true_true, Qeq_bool_iff. by rewrite Heq.
  - apply list_find_None in E. split; [| done].
    split; [intros _ | done]. by apply list.Forall_forall.
Qed.

End Updates.

(** ** What a token has to be *)

Section Tokens.

Context {J : Jwt.Lib} {P : ProcessEnv}.

Lemma strict_eq_ids (x y : Z) :
  Js.strict_eq (Js.JNumber (Js.of_Z x)) (Js.JNumber (Js.of_Z y)) ↔ x = y.
Proof.
  simpl. rewrite Is_true_true, Qeq_bool_iff. unfold Qeq. simpl. lia.
Qed.

(** X18: the guard asks a token for a valid signature, an expiry in the
    future and a user's id, and for nothing else.  Any token signed with
    [SECRET_KEY] that carries the id of a user is accepted for the first
    user with that id until it expires, whatever username it carries,
    whatever lifetime it was signed for and whether or not the login
    route issued it; and when the environment sets no secret, or an empty
    one, [SECRET_KEY] is the constant written in the source. *)
Theorem signed_id_is_enough
    (st : Store) (e : Env) (i : nat) (u : User) (name : string)
    (lifetime clock : Z) :
  st !! i = Some u →
  (∀ k v, st !! k = Some v → (k < i)%nat → u_id v ≠ u_id u) →
  jwt_clock e < clock + lifetime →
  authenticateToken st e
    (Some ("Bearer " +:+
           Jwt.sign {| Jwt.payload_id := u_id u; Jwt.payload_username := name |}
             SECRET_KEY lifetime clock))
  = inr (i, u)
  ∧ (env_SECRET_KEY = None ∨ env_SECRET_KEY = Some "" →
     SECRET_KEY = "fallback_secret_key").
Proof.
  intros Hi Hfirst Hlive. split.
  - set (p := {| Jwt.payload_id := u_id u; Jwt.payload_username := name |}).
    destruct (Jwt.sign_wire p SECRET_KEY lifetime clock) as [Hne Hsp].
    assert (header_token (Some ("Bearer " +:+ Jwt.sign p SECRET_KEY lifetime clock))
            = Some (Jwt.sign p SECRET_KEY lifetime clock)) as Hhdr.
    { change ("Bearer " +:+ ?t) with ("Bearer" +:+ String " " t).
      rewrite header_token_scheme by done. by rewrite split_no_sep. }
    rewrite (guard_token st e _ _ Hhdr Hne).
    rewrite Jwt.sign_verify by apply SECRET_KEY_nonempty.
    apply Z.ltb_lt in Hlive as ->. subst p.
    cbv beta iota. unfold Jwt.decoded_of. cbn [Jwt.decoded_id Jwt.payload_id].
    assert (list_find (λ v : User,
              Js.strict_eq (Js.JNumber (Js.of_Z (u_id v)))
                (Js.JNumber (Js.of_Z (u_id u)))) st = Some (i, u)) as ->; [| done].
    apply list_find_Some. split_and!; [done | by apply strict_eq_ids |].
    intros k v Hk Hlt Hv. apply strict_eq_ids in Hv. by apply (Hfirst k v).
  - unfold SECRET_KEY. by intros [-> | ->].
Qed.

End Tokens.

(** ** The further properties on the small deployment *)

Section Deployment2.

Import Scenario.

#[local] Existing Instance ref_lib.
#[local] Existing Instance no_secret.

Lemma Number_integer_to_string_witness :
  - 2 ^ 53 < 1700000000008 < 2 ^ 53
  ∧ Js.Number "1700000000008" = Js.of_Z 1700000000008
  ∧ Js.Number (integer_to_string (2 ^ 53 + 1)) ≠ Js.of_Z (2 ^ 53 + 1).
Proof.
  assert (- 2 ^ 53 < 1700000000008 < 2 ^ 53) as Hr
    by (vm_compute; split; reflexivity).
  split; [exact Hr |]. split.
  - exact (proj1 (Number_integer_to_string 1700000000008 inception_at_t0 Hr)).
  - vm_compute. discriminate.
Defined.

Lemma guard_sound_witness :
  authenticateToken users t1 (bearer alice_token) = inr (1%nat, alice_with [])
  ∧ ∃ h token decoded q,
      bearer alice_token = Some h
      ∧ Js.split " " h !! 1%nat = Some token
      ∧ token ≠ ""
      ∧ Jwt.verify token SECRET_KEY (jwt_clock t1) = inr decoded
      ∧ Jwt.decoded_id decoded = Js.JNumber (Js.Fin q)
      ∧ (q == inject_Z 2)%Q
      ∧ users !! 1%nat = Some (alice_with [])
      ∧ ∀ k v, users !! k = Some v → (k < 1)%nat → u_id v ≠ 2.
Proof.
  assert (authenticateToken users t1 (bearer alice_token)
          = inr (1%nat, alice_with [])) as Hg by (vm_compute; reflexivity).
  split; [exact Hg |].
  exact (guard_sound users t1 (bearer alice_token) 1 (alice_with []) Hg).
Defined.

Lemma guard_reads_second_segment_witness :
  Jwt.contains " " "Bearer" = false
  ∧ Jwt.contains " " alice_token = false
  ∧ authenticateToken users t1
      (Some ("Bearer " +:+ alice_token +:+ " and more text"))
    = inr (1%nat, alice_with [])
  ∧ authenticateToken users t1 (Some ("Bearer  " +:+ alice_token))
    = inl missing_token.
Proof.
  assert (Jwt.contains " " "Bearer" = false) as Hs by reflexivity.
  assert (Jwt.contains " " alice_token = false) as Ht
    by (vm_compute; reflexivity).
  split; [exact Hs |]. split; [exact Ht |]. split.
  - destruct (guard_reads_second_segment users t1 "Bearer" alice_token
                "and more text" Hs Ht) as (H & _ & _).
    etransitivity; [exact H |]. vm_compute; reflexivity.
  - destruct (guard_reads_second_segment users t1 "Bearer" alice_token
                alice_token Hs Ht) as (_ & H & _).
    exact H.
Defined.

Lemma refused_request_changes_nothing_witness :
  400 ≤ status (handle (run users alice_creates) t1
                  (DeleteMovie (bearer alice_token) "42")).1
  ∧ (handle (run users alice_creates) t1
       (DeleteMovie (bearer alice_token) "42")).2
    = run users alice_creates.
Proof.
  assert (400 ≤ status (handle (run users alice_creates) t1
                          (DeleteMovie (bearer alice_token) "42")).1) as H
    by (vm_compute; discriminate).
  split; [exact H |].
  exact (refused_request_changes_nothing _ _ _ H).
Defined.

Lemma create_appends_witness :
  authenticateToken users t0 (bearer alice_token) = inr (1%nat, alice_with [])
  ∧ ∃ movie st',
      handle users t0 (PostMovies (bearer alice_token) inception)
      = ({| status := 201; body := MovieJson movie |}, st')
      ∧ m_id movie = 1700000000008
      ∧ movietitle movie = Js.JString "Inception"
      ∧ st' !! 1%nat = Some (alice_with [movie])
      ∧ st' !! 0%nat = Some (ashwanth_with []).
Proof.
  assert (authenticateToken users t0 (bearer alice_token)
          = inr (1%nat, alice_with [])) as Hg by (vm_compute; reflexivity).
  split; [exact Hg |].
  destruct (create_appends users t0 (bearer alice_token) inception 1
              (alice_with []) Hg) as [_ Hok].
  destruct Hok as (movie & st' & Hh & Hid & Ht & _ & Hi & Hother & _);
    [exact I | exact I |].
  exists movie, st'. split; [exact Hh |]. split; [exact Hid |].
  split; [exact Ht |]. split; [exact Hi |].
  rewrite (Hother 0%nat); [reflexivity | discriminate].
Defined.

Lemma create_then_get_witness :
  authenticateToken users t0 (bearer alice_token) = inr (1%nat, alice_with [])
  ∧ - 2 ^ 53 < generateId t0 < 2 ^ 53
  ∧ (generateId t0 ∉ m_id <$> movies (alice_with []))
  ∧ ∃ movie st',
      handle users t0 (PostMovies (bearer alice_token) inception)
      = ({| status := 201; body := MovieJson movie |}, st')
      ∧ handle st' t2
          (GetMovie (bearer alice_token) (integer_to_string (m_id movie)))
        = ({| status := 200; body := MovieJson movie |}, st').
Proof.
  assert (authenticateToken users t0 (bearer alice_token)
          = inr (1%nat, alice_with [])) as Hg by (vm_compute; reflexivity).
  assert (- 2 ^ 53 < generateId t0 < 2 ^ 53) as Hr
    by (vm_compute; split; reflexivity).
  assert (generateId t0 ∉ (m_id <$> movies (alice_with []))) as Hf
    by apply not_elem_of_nil.
  split; [exact Hg |]. split; [exact Hr |]. split; [exact Hf |].
  destruct (create_then_get users t0 (bearer alice_token) inception 1
              (alice_with []) Hg I I Hr Hf) as (movie & st' & Hh & Hget).
  exists movie, st'. split; [exact Hh |].
  apply (Hget t2 (bearer alice_token) (alice_with [inception_at_t0])).
  apply (f_equal snd) in Hh. vm_compute in Hh. rewrite <- Hh.
  vm_compute; reflexivity.
Defined.

Lemma create_then_delete_witness :
  authenticateToken users t0 (bearer alice_token) = inr (1%nat, alice_with [])
  ∧ - 2 ^ 53 < generateId t0 < 2 ^ 53
  ∧ (generateId t0 ∉ m_id <$> movies (alice_with []))
  ∧ ∃ movie st',
      handle users t0 (PostMovies (bearer alice_token) inception)
      = ({| status := 201; body := MovieJson movie |}, st')
      ∧ handle st' t2
          (DeleteMovie (bearer alice_token) (integer_to_string (m_id movie)))
        = ({| status := 204; body := Empty |}, users).
Proof.
  assert (authenticateToken users t0 (bearer alice_token)
          = inr (1%nat, alice_with [])) as Hg by (vm_compute; reflexivity).
  assert (- 2 ^ 53 < generateId t0 < 2 ^ 53) as Hr
    by (vm_compute; split; reflexivity).
  assert (generateId t0 ∉ (m_id <$> movies (alice_with []))) as Hf
    by apply not_elem_of_nil.
  split; [exact Hg |]. split; [exact Hr |]. split; [exact Hf |].
  destruct (create_then_delete users t0 (bearer alice_token) inception 1
              (alice_with []) Hg I I Hr Hf) as (movie & st' & Hh & Hdel).
  exists movie, st'. split; [exact Hh |].
  apply (Hdel t2 (bearer alice_token) (alice_with [inception_at_t0])).
  apply (f_equal snd) in Hh. vm_compute in Hh. rewrite <- Hh.
  vm_compute; reflexivity.
Defined.

Lemma put_outcomes_witness :
  authenticateToken (run users alice_creates) t1 (bearer alice_token)
  = inr (1%nat, alice_with [inception_at_t0])
  ∧ handle (run users alice_creates) t1
      (PutMovie (bearer alice_token) "999" inception)
    = (not_found, run users alice_creates)
  ∧ handle (run users alice_creates) t1
      (PutMovie (bearer alice_token) "1700000000008" inception)
    = (status_json 400
         (Message "movietitle, language and watched are required for full update"),
       run users alice_creates)
  ∧ ∃ st',
      handle (run users alice_creates) t1
        (PutMovie (bearer alice_token) "1700000000008" tenet)
      = ({| status := 200; body := MovieJson tenet_at_t0 |}, st')
      ∧ st' !! 1%nat = Some (alice_with [tenet_at_t0]).
Proof.
  assert (authenticateToken (run users alice_creates) t1 (bearer alice_token)
          = inr (1%nat, alice_with [inception_at_t0])) as Hg
    by (vm_compute; reflexivity).
  assert (inception_at_t0 ∈ movies (alice_with [inception_at_t0])) as Hin
    by apply list_elem_of_here.
  assert (Is_true (id_matches (Js.Number "1700000000008") inception_at_t0))
    as Hm by (vm_compute; exact I).
  split; [exact Hg |]. split; [| split].
  - destruct (put_outcomes (run users alice_creates) t1 (bearer alice_token)
                "999" inception 1 (alice_with [inception_at_t0]) Hg)
      as [Hnone _].
    apply Hnone. intros m Hm'. apply list_elem_of_singleton in Hm'.
    rewrite Hm'. vm_compute. intros [].
  - destruct (put_outcomes (run users alice_creates) t1 (bearer alice_token)
                "1700000000008" inception 1 (alice_with [inception_at_t0]) Hg)
      as [_ Hsome].
    destruct (Hsome inception_at_t0 Hin Hm) as [H400 _].
    apply H400. right. right. reflexivity.
  - destruct (put_outcomes (run users alice_creates) t1 (bearer alice_token)
                "1700000000008" tenet 1 (alice_with [inception_at_t0]) Hg)
      as [_ Hsome].
    destruct (Hsome inception_at_t0 Hin Hm) as [_ H200].
    destruct H200 as (j & movie & st' & Hh & Hj & _ & _ & Hi & _);
      [discriminate .. |].
    destruct j as [|j]; [| discriminate Hj].
    injection Hj as <-. exists st'. split; [exact Hh | exact Hi].
Defined.

Lemma update_then_get_witness :
  authenticateToken (run users alice_creates) t1 (bearer alice_token)
  = inr (1%nat, alice_with [inception_at_t0])
  ∧ status (handle (run users alice_creates) t1
              (PatchMovie (bearer alice_token) "1700000000008" only_watched)).1
    = 200
  ∧ handle
      (handle (run users alice_creates) t1
         (PatchMovie (bearer alice_token) "1700000000008" only_watched)).2
      t2 (GetMovie (bearer alice_token) "1700000000008")
    = ((handle (run users alice_creates) t1
          (PatchMovie (bearer alice_token) "1700000000008" only_watched)).1,
       (handle (run users alice_creates) t1
          (PatchMovie (bearer alice_token) "1700000000008" only_watched)).2).
Proof.
  assert (authenticateToken (run users alice_creates) t1 (bearer alice_token)
          = inr (1%nat, alice_with [inception_at_t0])) as Hg
    by (vm_compute; reflexivity).
  assert (status (handle (run users alice_creates) t1
            (PatchMovie (bearer alice_token) "1700000000008" only_watched)).1
          = 200) as Hok by (vm_compute; reflexivity).
  split; [exact Hg |]. split; [exact Hok |].
  apply (update_then_get (run users alice_creates) t1 (bearer alice_token)
           "1700000000008" only_watched 1 (alice_with [inception_at_t0])
           _ Hg (or_intror eq_refl) Hok t2 (bearer alice_token)
           (alice_with
              [{| m_id := 1700000000008;
                  movietitle := Js.JString "Inception";
                  language := Js.JString "English";
                  watched := Js.JBool true |}])).
  vm_compute; reflexivity.
Defined.

Lemma update_idempotent_witness :
  authenticateToken (run users alice_creates) t1 (bearer alice_token)
  = inr (1%nat, alice_with [inception_at_t0])
  ∧ status (handle (run users alice_creates) t1
              (PutMovie (bearer alice_token) "1700000000008" tenet)).1
    = 200
  ∧ handle
      (handle (run users alice_creates) t1
         (PutMovie (bearer alice_token) "1700000000008" tenet)).2
      t2 (PutMovie (bearer alice_token) "1700000000008" tenet)
    = ((handle (run users alice_creates) t1
          (PutMovie (bearer alice_token) "1700000000008" tenet)).1,
       (handle (run users alice_creates) t1
          (PutMovie (bearer alice_token) "1700000000008" tenet)).2).
Proof.
  assert (authenticateToken (run users alice_creates) t1 (bearer alice_token)
          = inr (1%nat, alice_with [inception_at_t0])) as Hg
    by (vm_compute; reflexivity).
  assert (status (handle (run users alice_creates) t1
            (PutMovie (bearer alice_token) "1700000000008" tenet)).1
          = 200) as Hok by (vm_compute; reflexivity).
  split; [exact Hg |]. split; [exact Hok |].
  apply (update_idempotent (run users alice_creates) t1 (bearer alice_token)
           "1700000000008" tenet 1 (alice_with [inception_at_t0])
           _ Hg (or_introl eq_refl) Hok t2 (bearer alice_token)
           (alice_with [tenet_at_t0])).
  vm_compute; reflexivity.
Defined.

Lemma patch_full_is_put_witness :
  mb_movietitle tenet ≠ Js.JUndefined
  ∧ mb_language tenet ≠ Js.JUndefined
  ∧ mb_watched tenet ≠ Js.JUndefined
  ∧ handle (run users alice_creates) t1
      (PatchMovie (bearer alice_token) "1700000000008" tenet)
    = handle (run users alice_creates) t1
        (PutMovie (bearer alice_token) "1700000000008" tenet).
Proof.
  assert (mb_movietitle tenet ≠ Js.JUndefined) as H1 by discriminate.
  assert (mb_language tenet ≠ Js.JUndefined) as H2 by discriminate.
  assert (mb_watched tenet ≠ Js.JUndefined) as H3 by discriminate.
  split; [exact H1 |]. split; [exact H2 |]. split; [exact H3 |].
  exact (patch_full_is_put _ _ _ _ _ H1 H2 H3).
Defined.

Lemma delete_removes_all_then_404_witness :
  authenticateToken (run users alice_creates_twice) t2 (bearer alice_token)
  = inr (1%nat, alice_with [inception_at_t0; inception_at_t0])
  ∧ ∃ user',
      (handle (run users alice_creates_twice) t2
         (DeleteMovie (bearer alice_token) "1700000000008")).2 !! 1%nat
      = Some user'
      ∧ (2 = length (movies user') + 2)%nat
      ∧ handle
          (handle (run users alice_creates_twice) t2
             (DeleteMovie (bearer alice_token) "1700000000008")).2
          t2 (DeleteMovie (bearer alice_token) "1700000000008")
        = (not_found,
           (handle (run users alice_creates_twice) t2
              (DeleteMovie (bearer alice_token) "1700000000008")).2).
Proof.
  assert (authenticateToken (run users alice_creates_twice) t2
            (bearer alice_token)
          = inr (1%nat, alice_with [inception_at_t0; inception_at_t0])) as Hg
    by (vm_compute; reflexivity).
  split; [exact Hg |].
  destruct (delete_removes_all_then_404 (run users alice_creates_twice) t2
              (bearer alice_token) "1700000000008" 1
              (alice_with [inception_at_t0; inception_at_t0]) Hg)
    as (user' & Hi & _ & _ & Hlen & Hagain).
  exists user'. split; [exact Hi |]. split; [exact Hlen |].
  apply (Hagain t2 (bearer alice_token) (alice_with [])).
  vm_compute; reflexivity.
Defined.

Lemma signed_id_is_enough_witness :
  users !! 1%nat = Some (alice_with [])
  ∧ (∀ k v, users !! k = Some v → (k < 1)%nat → u_id v ≠ 2)
  ∧ jwt_clock t1 < 0 + 10 ^ 12
  ∧ authenticateToken users t1
      (Some ("Bearer " +:+
             RefJwt.sign {| Jwt.payload_id := 2;
                            Jwt.payload_username := "mallory" |}
               "fallback_secret_key" (10 ^ 12) 0))
    = inr (1%nat, alice_with []).
Proof.
  assert (∀ k v, users !! k = Some v → (k < 1)%nat → u_id v ≠ 2) as Hfirst.
  { intros k v Hk Hlt. destruct k as [|k]; [| lia].
    injection Hk as <-. discriminate. }
  assert (jwt_clock t1 < 0 + 10 ^ 12) as Hlive by (vm_compute; reflexivity).
  split; [reflexivity |]. split; [exact Hfirst |]. split; [exact Hlive |].
  exact (proj1 (signed_id_is_enough users t1 1 (alice_with []) "mallory"
                  (10 ^ 12) 0 eq_refl Hfirst Hlive)).
Defined.

Lemma watched_unwatched_split_witness :
  alice_with [inception_at_t0] ∈ run users alice_creates
  ∧ ∃ ws us,
      get_movies (alice_with [inception_at_t0]) (Js.JString "watched")
      = {| status := 200; body := MoviesJson ws |}
      ∧ get_movies (alice_with [inception_at_t0]) (Js.JString "unwatched")
        = {| status := 200; body := MoviesJson us |}
      ∧ ws ++ us ≡ₚ [inception_at_t0]
      ∧ (length ws + length us = 1)%nat
      ∧ ∀ m, m ∈ ws → m ∉ us.
Proof.
  assert (alice_with [inception_at_t0] ∈ run users alice_creates) as Hu.
  { apply (list_elem_of_lookup_2 _ 1%nat). vm_compute; reflexivity. }
  split; [exact Hu |].
  exact (watched_unwatched_split alice_creates _ Hu).
Defined.

End Deployment2.
